(** * rokucli: the command interpreter and the interactive dispatcher

    A shallow embedding of [rokucli/cli.py].  Every method of [RokuCLI]
    that touches the device, the terminal or the clock becomes a function
    in a small state-and-exception monad whose state is the log of
    observable events (device requests, sleeps, prints, terminal writes).

    Strings are sequences of 8-bit characters; case mapping and
    whitespace follow Python's [str] on the ASCII range.  Putting the
    terminal in cbreak mode and back is not an event of the model; what
    [term.inkey()] will return is given as the list of keystrokes to come. *)

From stdpp Require Import base numbers list strings gmap.
From Stdlib Require Import Ascii String ZArith Lia.

Open Scope string_scope.
Open Scope Z_scope.

(** ** Python string primitives *)

Module PyStr.

Definition code (c : ascii) : nat := nat_of_ascii c.

(** [str.isspace] on the ASCII range: TAB..CR, FS..US and the space. *)
Definition is_space (c : ascii) : bool :=
  ((9 <=? code c) && (code c <=? 13) || (28 <=? code c) && (code c <=? 32))%nat.

Definition lower_char (c : ascii) : ascii :=
  if ((65 <=? code c) && (code c <=? 90))%nat then ascii_of_nat (code c + 32) else c.

Definition upper_char (c : ascii) : ascii :=
  if ((97 <=? code c) && (code c <=? 122))%nat then ascii_of_nat (code c - 32) else c.

Fixpoint map_chars (f : ascii -> ascii) (s : string) : string :=
  match s with
  | EmptyString => EmptyString
  | String c s' => String (f c) (map_chars f s')
  end.

(** [s.lower()] and [s.upper()] *)
Definition lower : string -> string := map_chars lower_char.
Definition upper : string -> string := map_chars upper_char.

(** [s.startswith(p)] *)
Fixpoint startswith (p s : string) : bool :=
  match p, s with
  | EmptyString, _ => true
  | String a p', String b s' => if Ascii.eqb a b then startswith p' s' else false
  | String _ _, EmptyString => false
  end.

Fixpoint lstrip (s : string) : string :=
  match s with
  | EmptyString => EmptyString
  | String c s' => if is_space c then lstrip s' else s
  end.

Fixpoint rstrip (s : string) : string :=
  match s with
  | EmptyString => EmptyString
  | String c s' =>
      match rstrip s' with
      | EmptyString => if is_space c then EmptyString else String c EmptyString
      | t => String c t
      end
  end.

(** [s.strip()] *)
Definition strip (s : string) : string := rstrip (lstrip s).

(** [s.split(sep)] for a one-character separator: never the empty list. *)
Fixpoint split (sep : ascii) (s : string) : list string :=
  match s with
  | EmptyString => [EmptyString]
  | String c s' =>
      if Ascii.eqb c sep then EmptyString :: split sep s'
      else match split sep s' with
           | [] => [String c EmptyString]
           | x :: xs => String c x :: xs
           end
  end.

(** [s[n:]] *)
Fixpoint slice_from (n : nat) (s : string) : string :=
  match n, s with
  | O, _ => s
  | S n', String _ s' => slice_from n' s'
  | S _, EmptyString => EmptyString
  end.

(** the characters of [s], as [for char in s] visits them *)
Fixpoint chars (s : string) : list ascii :=
  match s with
  | EmptyString => []
  | String c s' => c :: chars s'
  end.

End PyStr.

(** ** Python [float(str)] and [time.sleep] *)

Module PyFloat.

(** The value of a float literal, kept as the exact decimal
    [mantissa * 10 ^ exponent]; rounding to binary64 is not modelled. *)
Inductive pyfloat :=
| Fin (mantissa exponent : Z)
| Inf (negative : bool)
| NaN.

Definition is_digit (c : ascii) : bool :=
  ((48 <=? PyStr.code c) && (PyStr.code c <=? 57))%nat.

Definition digit_val (c : ascii) : Z := Z.of_nat (PyStr.code c) - 48.

(** C [isspace], which is what [float] strips from an ASCII string. *)
Definition is_cspace (c : ascii) : bool :=
  ((9 <=? PyStr.code c) && (PyStr.code c <=? 13) || (PyStr.code c =? 32))%nat.

(** An underscore is accepted only between two digits, and dropped. *)
Fixpoint drop_underscores (prev : option ascii) (s : list ascii) : option (list ascii) :=
  match s with
  | [] => Some []
  | c :: s' =>
      if Ascii.eqb c "_" then
        match prev, s' with
        | Some p, n :: _ =>
            if is_digit p && is_digit n then drop_underscores (Some c) s' else None
        | _, _ => None
        end
      else cons c <$> drop_underscores (Some c) s'
  end.

Fixpoint take_digits (s : list ascii) : list ascii * list ascii :=
  match s with
  | c :: s' =>
      if is_digit c then let '(ds, tl) := take_digits s' in (c :: ds, tl) else ([], s)
  | [] => ([], [])
  end.

Definition digits_value (ds : list ascii) : Z :=
  fold_left (fun acc c => 10 * acc + digit_val c) ds 0.

Definition parse_sign (s : list ascii) : bool * list ascii :=
  match s with
  | c :: r => if Ascii.eqb c "-" then (true, r)
              else if Ascii.eqb c "+" then (false, r) else (false, s)
  | [] => (false, [])
  end.

(** what follows the mantissa: nothing, or [e] / [E], a sign, digits *)
Definition parse_exponent (s : list ascii) : option Z :=
  match s with
  | [] => Some 0
  | c :: r =>
      if Ascii.eqb (PyStr.lower_char c) "e" then
        let '(neg, r') := parse_sign r in
        let '(ds, tl) := take_digits r' in
        match ds, tl with
        | _ :: _, [] => Some (if neg then - digits_value ds else digits_value ds)
        | _, _ => None
        end
      else None
  end.

Definition parse_number (s : list ascii) : option (Z * Z) :=
  let '(ip, r1) := take_digits s in
  let '(fp, r2) :=
    match r1 with
    | c :: r => if Ascii.eqb c "." then take_digits r else ([], r1)
    | [] => ([], [])
    end in
  match (ip ++ fp)%list with
  | [] => None
  | ds => e ← parse_exponent r2; Some (digits_value ds, e - Z.of_nat (List.length fp))
  end.

Fixpoint lstrip_cspace (s : list ascii) : list ascii :=
  match s with
  | c :: s' => if is_cspace c then lstrip_cspace s' else s
  | [] => []
  end.

Definition strip_cspace (s : list ascii) : list ascii :=
  reverse (lstrip_cspace (reverse (lstrip_cspace s))).

Definition word_is (w : string) (s : list ascii) : bool :=
  bool_decide (map PyStr.lower_char s = PyStr.chars w).

(** [float(s)]: [None] stands for the [ValueError] it raises. *)
Definition float_of_string (s : string) : option pyfloat :=
  body ← drop_underscores None (PyStr.chars s);
  let '(neg, r) := parse_sign (strip_cspace body) in
  if word_is "inf" r || word_is "infinity" r then Some (Inf neg)
  else if word_is "nan" r then Some NaN
  else '(m, e) ← parse_number r; Some (Fin (if neg then - m else m) e).

(** What [time.sleep(d)] does with its argument before sleeping. *)
Inductive sleep_check := SleepOk | SleepValueError | SleepOverflowError.

(** [|m * 10^e|] seconds do not fit a signed 64-bit count of nanoseconds *)
Definition exceeds_clock (m e : Z) : bool :=
  if 0 <=? e + 9 then 2 ^ 63 <=? Z.abs m * 10 ^ (e + 9)
  else 2 ^ 63 * 10 ^ (- (e + 9)) <=? Z.abs m.

Definition check_sleep (d : pyfloat) : sleep_check :=
  match d with
  | NaN => SleepValueError
  | Inf _ => SleepOverflowError
  | Fin m e =>
      if exceeds_clock m e then SleepOverflowError
      else if m <? 0 then SleepValueError
      else SleepOk
  end.

End PyFloat.

(** ** The device, the terminal and the observable events *)

(** The operations of the [roku.Roku] handle that the program calls. *)
Inductive DevOp :=
| Power | Back | Home | Left | Down | Up | Right | Replay | Info
| Reverse | Forward | Play | VolumeUp | VolumeDown | VolumeMute
| Select | Enter | Backspace
| Literal (ch : string).

Global Instance DevOp_eq_dec : EqDecision DevOp.
Proof. solve_decision. Defined.

(** A handle: its address, what [device_info] reports, and whether the
    [n]-th request sent to it (counting from 0) returns or raises. *)
Record Roku := {
  host : string;
  port : string;
  device_info : string;
  roku_type : string;
  responds : nat -> DevOp -> bool
}.

(** [blessed.Terminal]: the cursor position it reports and its height. *)
Record Terminal := {
  get_location : Z * Z;
  height : Z
}.

Record RokuCLI := {
  term : Terminal;
  roku : Roku
}.

Global Instance pyfloat_eq_dec : EqDecision PyFloat.pyfloat.
Proof. solve_decision. Defined.

Inductive Event :=
| Request (op : DevOp) (ok : bool)   (* a device operation, and whether it returned *)
| Sleep (d : PyFloat.pyfloat)        (* time.sleep(d) *)
| Print (msg : string)               (* print(msg) *)
| Write (s : string)                 (* sys.stdout.write(s) *)
| WriteClearBol                      (* sys.stdout.write(term.clear_bol) *)
| WriteMove (row col : Z)            (* sys.stdout.write(term.move(row, col)) *)
| Flush.                             (* sys.stdout.flush() *)

Global Instance Event_eq_dec : EqDecision Event.
Proof. solve_decision. Defined.

Inductive exn :=
| DeviceError
| ValueError
| OverflowError
| IndexError
| SystemExit (status : Z).

Global Instance exn_eq_dec : EqDecision exn.
Proof. solve_decision. Defined.

(** ** The monad: a log of events, exceptions, blocking reads *)

Record World := {
  calls : nat;           (* requests sent to the device so far *)
  log : list Event       (* events so far, oldest first *)
}.

Inductive Res (A : Type) :=
| Val (a : A)            (* returned *)
| Exc (e : exn)          (* raised *)
| Hang                   (* blocked in [inkey()]: no key left to read *)
| OutOfFuel.             (* the iteration bound of the model was reached *)
Arguments Val {A} a.
Arguments Exc {A} e.
Arguments Hang {A}.
Arguments OutOfFuel {A}.

Definition M (A : Type) : Type := World -> Res A * World.

Definition ret {A} (a : A) : M A := fun w => (Val a, w).

Definition bind {A B} (m : M A) (k : A -> M B) : M B :=
  fun w =>
    match m w with
    | (Val a, w') => k a w'
    | (Exc e, w') => (Exc e, w')
    | (Hang, w') => (Hang, w')
    | (OutOfFuel, w') => (OutOfFuel, w')
    end.

Global Instance M_ret : MRet M := @ret.
Global Instance M_bind : MBind M := fun A B k m => bind m k.

Definition raise {A} (e : exn) : M A := fun w => (Exc e, w).
Definition hang {A} : M A := fun w => (Hang, w).
Definition out_of_fuel {A} : M A := fun w => (OutOfFuel, w).

(** [try: m / except <those that handles accepts>: h] *)
Definition catch_if {A} (handles : exn -> bool) (m : M A) (h : M A) : M A :=
  fun w =>
    match m w with
    | (Exc e, w') => if handles e then h w' else (Exc e, w')
    | r => r
    end.

(** [try: m / except: h] *)
Definition catch {A} : M A -> M A -> M A := catch_if (fun _ => true).

Definition emit (e : Event) : M unit :=
  fun w => (Val tt, {| calls := calls w; log := log w ++ [e] |}).

Definition print (msg : string) : M unit := emit (Print msg).

(** One call of a bound method of the handle. *)
Definition request (r : Roku) (op : DevOp) : M unit :=
  fun w =>
    let w' ok := {| calls := S (calls w); log := log w ++ [Request op ok] |} in
    if responds r (calls w) op then (Val tt, w' true) else (Exc DeviceError, w' false).

Definition float (s : string) : M PyFloat.pyfloat :=
  match PyFloat.float_of_string s with
  | Some d => ret d
  | None => raise ValueError
  end.

Definition time_sleep (d : PyFloat.pyfloat) : M unit :=
  match PyFloat.check_sleep d with
  | PyFloat.SleepOk => emit (Sleep d)
  | PyFloat.SleepValueError => raise ValueError
  | PyFloat.SleepOverflowError => raise OverflowError
  end.

(** [l[i]] *)
Definition index {A} (l : list A) (i : nat) : M A :=
  match l !! i with
  | Some x => ret x
  | None => raise IndexError
  end.

Definition sys_exit {A} (status : Z) : M A := raise (SystemExit status).

Definition is_ValueError (e : exn) : bool := bool_decide (e = ValueError).

Definition world0 : World := {| calls := 0; log := [] |}.

(** ** Script mode *)

Module Script.

(** the dictionary built in [execute_command] *)
Definition cmd_func_map : gmap string DevOp :=
  list_to_map
    [("power", Power); ("back", Back); ("home", Home); ("left", Left);
     ("down", Down); ("up", Up); ("right", Right); ("replay", Replay);
     ("info", Info); ("reverse", Reverse); ("forward", Forward);
     ("play", Play); ("pause", Play);
     ("volume-up", VolumeUp); ("volume-down", VolumeDown);
     ("mute", VolumeMute); ("select", Select); ("enter", Select)].

Global Arguments cmd_func_map : simpl never.

Definition execute_command (self : RokuCLI) (cmd : string) : M bool :=
  let cmd :=
    if negb (PyStr.startswith "TEXT:" cmd || PyStr.startswith "WAIT:" cmd)
    then PyStr.lower cmd else cmd in
  match cmd_func_map !! cmd with
  | Some op =>
      catch (request (roku self) op;; mret true)
            (print ("Failed to execute command: " ++ cmd);; mret false)
  | None => mret false
  end.

(** [for char in text: self.roku.literal(char)] *)
Fixpoint send_literals (r : Roku) (cs : list ascii) : M unit :=
  match cs with
  | [] => mret tt
  | c :: cs' => request r (Literal (String c EmptyString));; send_literals r cs'
  end.

Definition execute_text (self : RokuCLI) (text : string) : M bool :=
  catch (send_literals (roku self) (PyStr.chars text);;
         request (roku self) Enter;;
         mret true)
        (print ("Failed to input text: " ++ text);; mret false).

(** the [for cmd in commands] loop of [parse_and_execute_commands] *)
Fixpoint for_commands (self : RokuCLI) (commands : list string) : M bool :=
  match commands with
  | [] => mret true
  | cmd :: rest =>
      if bool_decide (cmd = "") then for_commands self rest
      else
        let cmd := PyStr.strip cmd in
        if PyStr.startswith "WAIT:" (PyStr.upper cmd) then
          go_on ← catch_if is_ValueError
                    (field ← index (PyStr.split ":" cmd) 1;
                     delay ← float field;
                     time_sleep delay;;
                     mret true)
                    (print ("Invalid wait command: " ++ cmd);; mret false);
          if go_on : bool then for_commands self rest else mret false
        else if PyStr.startswith "TEXT:" (PyStr.upper cmd) then
          ok ← execute_text self (PyStr.slice_from 5 cmd);
          if negb ok then mret false else for_commands self rest
        else
          ok ← execute_command self cmd;
          if negb ok then mret false
          else time_sleep (PyFloat.Fin 1 (-1));; for_commands self rest
  end.

Definition parse_and_execute_commands (self : RokuCLI) (command_string : string) : M bool :=
  for_commands self (PyStr.strip <$> PyStr.split "," command_string).

End Script.

(** ** Interactive mode *)

(** What [term.inkey()] returns: nothing, a character, or a decoded key
    sequence with its name. *)
Inductive Keystroke :=
| KEmpty
| KChar (c : ascii)
| KSeq (name : string).

Module Keys.

(** the [str] value of the keystroke; for a sequence only its being
    non-empty matters, the escape bytes themselves are never used *)
Definition text (k : Keystroke) : string :=
  match k with
  | KEmpty => EmptyString
  | KChar c => String c EmptyString
  | KSeq _ => String (ascii_of_nat 27) EmptyString
  end.

Definition is_sequence (k : Keystroke) : bool :=
  match k with KSeq _ => true | _ => false end.

Definition name (k : Keystroke) : string :=
  match k with KSeq n => n | _ => EmptyString end.

End Keys.

Definition default_usage_menu : string :=
"  +-------------------------------+-------------------------+
  | Back           B or <Esc>     | Replay          R       |
  | Home           H              | Info/Settings   i       |
  | Left           h or <Left>    | Rewind          r       |
  | Down           j or <Down>    | Fast-Fwd        f       |
  | Up             k or <Up>      | Play/Pause      <Space> |
  | Right          l or <Right>   | Enter Text      /       |
  | Ok/Enter       <Enter>        |                         |
  +-------------------------------+-------------------------+
   (press q to exit)
".

Definition tv_usage_menu : string :=
"  +-------------------------------+-------------------------+
  | Power          p              | Replay          R       |
  | Back           B or <Esc>     | Info/Settings   i       |
  | Home           H              | Rewind          r       |
  | Left           h or <Left>    | Fast-Fwd        f       |
  | Down           j or <Down>    | Play/Pause      <Space> |
  | Up             k or <Up>      | Enter Text      /       |
  | Right          l or <Right>   | Volume Up       V       |
  | Ok/Enter       <Enter>        | Volume Down     v       |
  |                               | Volume Mute     M       |
  +-------------------------------+-------------------------+
   (press q to exit)
".

Module Interactive.

Definition allowed_sequences : gset string :=
  list_to_set ["KEY_ENTER"; "KEY_ESCAPE"; "KEY_DELETE"; "KEY_BACKSPACE"].

(** the three characters backspace, space, backspace *)
Definition erase_one : string :=
  String (ascii_of_nat 8) (String " " (String (ascii_of_nat 8) EmptyString)).

(** What one pass of the [while] body of [text_entry] does once [val]
    is a plain string: the [if] / [elif] chain and the flush.  Returns
    the new [cur_column]. *)
Definition text_entry_key (self : RokuCLI) (start_column cur_column : Z)
    (val : string) : M Z :=
  cur ←
    (if bool_decide (val = "KEY_ENTER") then
       request (roku self) Enter;; mret cur_column
     else if bool_decide (val = "KEY_ESCAPE") then
       mret cur_column
     else if bool_decide (val = "KEY_DELETE") || bool_decide (val = "KEY_BACKSPACE") then
       request (roku self) Backspace;;
       if start_column <? cur_column then
         emit (Write erase_one);; mret (cur_column - 1)
       else mret cur_column
     else
       request (roku self) (Literal val);;
       emit (Write val);;
       mret (cur_column + 1));
  emit Flush;;
  mret cur.

(** the [while val != 'KEY_ENTER' and val != 'KEY_ESCAPE'] loop;
    returns the keys not read *)
Fixpoint text_entry_loop (self : RokuCLI) (start_column cur_column : Z)
    (val : string) (keys : list Keystroke) : M (list Keystroke) :=
  if bool_decide (val ≠ "KEY_ENTER") && bool_decide (val ≠ "KEY_ESCAPE") then
    match keys with
    | [] => hang
    | k :: rest =>
        if bool_decide (Keys.text k = "") then
          text_entry_loop self start_column cur_column (Keys.text k) rest
        else if Keys.is_sequence k
                && negb (bool_decide (Keys.name k ∈ allowed_sequences)) then
          text_entry_loop self start_column cur_column (Keys.name k) rest
        else
          let val := if Keys.is_sequence k then Keys.name k else Keys.text k in
          cur ← text_entry_key self start_column cur_column val;
          text_entry_loop self start_column cur val rest
    end
  else mret keys.

Definition text_entry (self : RokuCLI) (keys : list Keystroke) : M (list Keystroke) :=
  emit (Write "Enter text (<Esc> to abort) : ");;
  emit Flush;;
  let start_column := (get_location (term self)).2 in
  let cur_column := start_column in
  rest ← text_entry_loop self start_column cur_column "" keys;
  emit WriteClearBol;;
  emit (WriteMove (height (term self)) 0);;
  emit Flush;;
  mret rest.

(** what a key of the table is bound to *)
Inductive Binding :=
| Op (op : DevOp)       (* a method of the handle *)
| TextEntry.            (* [self.text_entry] *)

(** the dictionary built in [run] *)
Definition cmd_func_map (is_tv : bool) : gmap string Binding :=
  let cmd_func_map : gmap string Binding :=
    list_to_map
      [("p", Op Power); ("B", Op Back); ("KEY_ESCAPE", Op Back);
       ("H", Op Home); ("h", Op Left); ("KEY_LEFT", Op Left);
       ("j", Op Down); ("KEY_DOWN", Op Down); ("k", Op Up);
       ("KEY_UP", Op Up); ("l", Op Right); ("KEY_RIGHT", Op Right);
       ("KEY_ENTER", Op Select); ("R", Op Replay); ("i", Op Info);
       ("r", Op Reverse); ("f", Op Forward); (" ", Op Play);
       ("/", TextEntry)] in
  if is_tv then
    <["M" := Op VolumeMute]> (<["v" := Op VolumeDown]> (<["V" := Op VolumeUp]> cmd_func_map))
  else cmd_func_map.

Global Arguments cmd_func_map : simpl never.

(** [cmd_func_map[val]()] *)
Definition invoke (self : RokuCLI) (b : Binding) (keys : list Keystroke) : M (list Keystroke) :=
  match b with
  | Op op => request (roku self) op;; mret keys
  | TextEntry => text_entry self keys
  end.

(** the [while val.lower() != 'q'] loop of [run], over any table;
    returns the keys not read *)
Fixpoint main_loop (fuel : nat) (self : RokuCLI) (table : gmap string Binding)
    (val : string) (keys : list Keystroke) : M (list Keystroke) :=
  if bool_decide (PyStr.lower val ≠ "q") then
    match fuel with
    | O => out_of_fuel
    | S fuel' =>
        match keys with
        | [] => hang
        | k :: rest =>
            if bool_decide (Keys.text k = "") then
              main_loop fuel' self table (Keys.text k) rest
            else
              let val := if Keys.is_sequence k then Keys.name k else Keys.text k in
              match table !! val with
              | Some b =>
                  rest' ← catch (invoke self b rest)
                            (print ("Unable to communicate with roku at "
                                      ++ host (roku self) ++ ":" ++ port (roku self));;
                             sys_exit 1);
                  main_loop fuel' self table val rest'
              | None => main_loop fuel' self table val rest
              end
        end
    end
  else mret keys.

End Interactive.

(** ** The entry point *)

Record Args := {
  ipaddr : option string;
  command : option string
}.

(** [run], given the handle that [Roku(ipaddr)] or [discover_roku()]
    produced ([None] when there is none) and the keys that will be typed. *)
Definition run (args : Args) (term : Terminal) (found : option Roku)
    (keys : list Keystroke) : M unit :=
  match found with
  | None => mret tt
  | Some roku =>
      let self := {| term := term; roku := roku |} in
      match command args with
      | Some (String c s as script) =>
          success ← Script.parse_and_execute_commands self script;
          sys_exit (if success : bool then 0 else 1)
      | _ =>
          print (device_info roku);;
          let is_tv := bool_decide (roku_type roku = "TV") in
          print (if is_tv then tv_usage_menu else default_usage_menu);;
          Interactive.main_loop (S (List.length keys)) self
            (Interactive.cmd_func_map is_tv) "" keys;;
          mret tt
      end
  end.

(** The status the process ends with: [sys.exit(n)] gives [n], an
    exception nobody caught gives 1, a normal return gives 0. *)
Definition exit_status {A} (r : Res A) : option Z :=
  match r with
  | Val _ => Some 0
  | Exc (SystemExit n) => Some n
  | Exc _ => Some 1
  | Hang | OutOfFuel => None
  end.

(** ** Worlds and logs *)

(** [w] after [n] more requests and the events [es] *)
Definition extend (w : World) (n : nat) (es : list Event) : World :=
  {| calls := n + calls w; log := log w ++ es |}.

(** the pause [time.sleep(0.1)] *)
Definition pause : Event := Sleep (PyFloat.Fin 1 (-1)).

(** the non-empty trimmed comma-separated tokens of a script *)
Definition tokens (script : string) : list string :=
  filter (λ t, t ≠ "") (PyStr.strip <$> PyStr.split "," script).

(** the device operation a symbolic command names, whatever its case *)
Definition known_op (tok : string) : option DevOp :=
  Script.cmd_func_map !! PyStr.lower tok.

(** the token carries a [WAIT:] or [TEXT:] prefix, in any case *)
Definition is_wait (tok : string) : bool := PyStr.startswith "WAIT:" (PyStr.upper tok).
Definition is_text (tok : string) : bool := PyStr.startswith "TEXT:" (PyStr.upper tok).

(** the device operations a [TEXT:] directive with this text asks for *)
Definition text_ops (text : string) : list DevOp :=
  ((λ c, Literal (String c EmptyString)) <$> PyStr.chars text) ++ [Enter].

(** sending a list of operations one after the other *)
Fixpoint run_ops (r : Roku) (ops : list DevOp) : M unit :=
  match ops with
  | [] => mret tt
  | op :: ops' => request r op;; run_ops r ops'
  end.

(** the log entries of operations that all returned *)
Definition sent (ops : list DevOp) : list Event := (λ op, Request op true) <$> ops.

(** a token that is not empty, carries no directive prefix and names no
    symbolic command *)
Definition unknown (tok : string) : Prop :=
  tok ≠ "" ∧ is_wait tok = false ∧ is_text tok = false ∧ known_op tok = None.

(** how a run of the interpreter can end: it returns, or one of the two
    exceptions it does not catch escapes *)
Definition script_outcome (r : Res bool) : Prop :=
  match r with
  | Val _ | Exc OverflowError | Exc IndexError => True
  | _ => False
  end.

(** Following the spec's words: the seconds of a [WAIT:] token are read
    from the remainder of the token, that is, all that follows the prefix. *)
Definition wait_seconds_per_spec (tok : string) : option PyFloat.pyfloat :=
  PyFloat.float_of_string (PyStr.slice_from 5 tok).



(** the keys a loop left unread, when it returned *)
Definition unread (r : Res (list Keystroke)) : nat :=
  match r with
  | Val rest => List.length rest
  | _ => 0%nat
  end.

(** what [val] holds once the interactive loop has decoded a key *)
Definition key_val (k : Keystroke) : string :=
  if Keys.is_sequence k then Keys.name k else Keys.text k.

(** the line [run] prints before giving up on the device *)
Definition unreachable_message (r : Roku) : string :=
  "Unable to communicate with roku at " ++ host r ++ ":" ++ port r.

(** a key the interactive loop passes over: an empty keystroke or one
    the table does not bind, and not the quit key *)
Definition passed_over (table : gmap string Interactive.Binding) (k : Keystroke) : Prop :=
  (Keys.text k = "" ∨ table !! key_val k = None) ∧ PyStr.lower (key_val k) ≠ "q".

(** every device operation among the events satisfies [P] *)
Definition requests_satisfy (P : DevOp -> Prop) (l : list Event) : Prop :=
  Forall (λ e, match e with Request op _ => P op | _ => True end) l.

(** what a function adds to the log holds only operations satisfying [P] *)
Definition adds {A} (P : DevOp -> Prop) (m : M A) (w : World) : Prop :=
  exists added, log (m w).2 = (log w ++ added)%list /\ requests_satisfy P added.

(** an operation the text entry sub-mode sends *)
Definition text_entry_op (op : DevOp) : Prop :=
  op = Enter ∨ op = Backspace ∨ ∃ s, op = Literal s.

Definition volume_op (op : DevOp) : Prop :=
  op = VolumeUp ∨ op = VolumeDown ∨ op = VolumeMute.

(** the keystrokes of typing [text], one per character *)
Definition typed (text : string) : list Keystroke := KChar <$> PyStr.chars text.

(** what the sub-mode logs for each typed character: the request, the
    echo, the flush *)
Definition echoed (text : string) : list Event :=
  PyStr.chars text ≫= λ c,
    [Request (Literal (String c EmptyString)) true; Write (String c EmptyString); Flush].

(** how many times the log erases a character, and how many times it
    echoes one *)
Definition is_erasure (e : Event) : bool :=
  match e with
  | Write s => bool_decide (s = Interactive.erase_one)
  | _ => false
  end.

Definition is_echo (e : Event) : bool :=
  match e with
  | Write (String _ EmptyString) => true
  | _ => false
  end.

Definition erasures (l : list Event) : nat := List.length (List.filter is_erasure l).

Definition echoes (l : list Event) : nat := List.length (List.filter is_echo l).

(** what [m] adds to the log erases no more characters than the columns
    the cursor stands right of [start], plus the characters it echoes *)
Definition keeps_column (start cur : Z) (m : M (list Keystroke)) (w : World) : Prop :=
  exists added,
    log (m w).2 = (log w ++ added)%list
    /\ Z.of_nat (erasures added) <= cur - start + Z.of_nat (echoes added).

(** a key the text entry sub-mode skips: an empty keystroke, or a key
    sequence outside the allowed ones *)
Definition skipped_in_text_entry (k : Keystroke) : Prop :=
  k = KEmpty ∨ ∃ name, k = KSeq name ∧ name ∉ Interactive.allowed_sequences.

(** an operation script mode can send: one the command table binds, the
    enter that ends a text, or a one-character literal *)
Definition script_op (op : DevOp) : Prop :=
  (∃ name, Script.cmd_func_map !! name = Some op)
  ∨ op = Enter
  ∨ ∃ c, op = Literal (String c EmptyString).

(** ** Concrete devices, for the examples *)

Definition screen : Terminal := {| get_location := (23, 30); height := 24 |}.

Definition box : Roku :=
  {| host := "192.168.1.20"; port := "8060"; device_info := "<Roku: Box>";
     roku_type := "Box"; responds := fun _ _ => true |}.

Definition tv : Roku :=
  {| host := "192.168.1.21"; port := "8060"; device_info := "<Roku: TV>";
     roku_type := "TV"; responds := fun _ _ => true |}.

(** a box that stops answering from its [n]-th request on *)
Definition unplugged (n : nat) : Roku :=
  {| host := "192.168.1.22"; port := "8060"; device_info := "<Roku: Box>";
     roku_type := "Box"; responds := fun i _ => (i <? n)%nat |}.

Definition cli (r : Roku) : RokuCLI := {| term := screen; roku := r |}.

(** the device operations of a log, oldest first, with their outcome *)
Fixpoint requests (l : list Event) : list (DevOp * bool) :=
  match l with
  | [] => []
  | Request op ok :: l' => (op, ok) :: requests l'
  | _ :: l' => requests l'
  end.

(** the number of device operations in the log of [w] *)
Definition nreq (w : World) : nat := List.length (requests (log w)).

(** * Auxiliary facts *)

Lemma extend_extend w n es m fs :
  extend (extend w n es) m fs = extend w (m + n) (es ++ fs)%list.
Proof.
  unfold extend; simpl. f_equal; [lia | by rewrite <- app_assoc].
Qed.

Lemma extend_nil w : extend w 0 [] = w.
Proof. destruct w; unfold extend; simpl. by rewrite app_nil_r. Qed.

Lemma requests_app l1 l2 : requests (l1 ++ l2) = (requests l1 ++ requests l2)%list.
Proof.
  induction l1 as [|e l1 IH]; simpl; [done|].
  destruct e; simpl; by rewrite ?IH.
Qed.

Section StringFacts.
Import PyStr.

Lemma upper_lower_char c : upper_char (lower_char c) = upper_char c.
Proof. by destruct c as [[] [] [] [] [] [] [] []]. Qed.

Lemma upper_lower s : upper (lower s) = upper s.
Proof.
  induction s as [|c s IH]; simpl; [done|].
  unfold upper, lower in *; simpl. by rewrite upper_lower_char, IH.
Qed.

(** a string that starts with [TEXT:] or [WAIT:] still does once upper-cased *)
Lemma startswith_upper p s :
  upper p = p -> startswith p s = true -> startswith p (upper s) = true.
Proof.
  revert s; induction p as [|a p IH]; intros s Hp Hs; [done|].
  destruct s as [|b s]; [done|]. simpl in *.
  unfold upper in Hp; simpl in Hp. injection Hp as Ha Hp.
  destruct (Ascii.eqb_spec a b) as [->|]; [|done].
  rewrite Ha, Ascii.eqb_refl. by apply IH.
Qed.

Lemma startswith_raw_false p s :
  upper p = p -> startswith p (upper s) = false -> startswith p s = false.
Proof.
  intros Hp Hs. destruct (startswith p s) eqn:E; [|done].
  by rewrite (startswith_upper _ _ Hp E) in Hs.
Qed.

Lemma text_not_wait u :
  startswith "TEXT:" u = true -> startswith "WAIT:" u = false.
Proof.
  destruct u as [|c u]; [done|]. cbn [startswith].
  destruct (Ascii.eqb_spec "T" c) as [<-|]; [|done]. by intros _.
Qed.

Lemma lstrip_head c s : is_space c = false -> lstrip (String c s) = String c s.
Proof. intros H; simpl; by rewrite H. Qed.

Lemma rstrip_idem s : rstrip (rstrip s) = rstrip s.
Proof.
  induction s as [|c s IH]; simpl; [done|].
  destruct (rstrip s) as [|d t] eqn:E.
  - destruct (is_space c) eqn:Ec; simpl; [done|]. by rewrite Ec.
  - simpl in *. by rewrite IH.
Qed.

Lemma rstrip_head c s :
  is_space c = false -> exists t, rstrip (String c s) = String c t.
Proof.
  intros H; simpl. destruct (rstrip s); [rewrite H|]; eauto.
Qed.

Lemma lstrip_cases s :
  lstrip s = "" \/ exists c t, lstrip s = String c t /\ is_space c = false.
Proof.
  induction s as [|c s IH]; simpl; [by left|].
  destruct (is_space c) eqn:E; [done|]. right; eauto.
Qed.

Lemma strip_idem s : strip (strip s) = strip s.
Proof.
  unfold strip. destruct (lstrip_cases s) as [->|(c & t & -> & Hc)]; [done|].
  destruct (rstrip_head c t Hc) as [t' Ht']. rewrite Ht'.
  rewrite (lstrip_head _ _ Hc), <- Ht'. apply rstrip_idem.
Qed.

End StringFacts.

(** the monad's equations, at a world *)
Lemma bind_eq {A B} (m : M A) (k : A -> M B) w :
  (m ≫= k) w =
  match m w with
  | (Val a, w') => k a w'
  | (Exc e, w') => (Exc e, w')
  | (Hang, w') => (Hang, w')
  | (OutOfFuel, w') => (OutOfFuel, w')
  end.
Proof. reflexivity. Qed.

Lemma emit_eq e w : emit e w = (Val tt, extend w 0 [e]).
Proof. reflexivity. Qed.

Lemma print_eq msg w : print msg w = (Val tt, extend w 0 [Print msg]).
Proof. reflexivity. Qed.

Lemma mret_eq {A} (a : A) w : (mret a : M A) w = (Val a, w).
Proof. reflexivity. Qed.

(** run the monadic steps whose outcome is known *)
Ltac mstep :=
  repeat (first [ rewrite bind_eq | rewrite print_eq | rewrite emit_eq
                | rewrite mret_eq | rewrite extend_extend ];
          cbn beta iota);
  cbn [Nat.add app].

Lemma request_ok r op w :
  responds r (calls w) op = true ->
  request r op w = (Val tt, extend w 1 [Request op true]).
Proof. intros H. unfold request. by rewrite H. Qed.

Lemma request_fail r op w :
  responds r (calls w) op = false ->
  request r op w = (Exc DeviceError, extend w 1 [Request op false]).
Proof. intros H. unfold request. by rewrite H. Qed.

Section ScriptFacts.
Import PyStr Script.
Variable self : RokuCLI.

Lemma table_keys_plain k op :
  cmd_func_map !! k = Some op -> is_wait k = false /\ is_text k = false.
Proof.
  unfold cmd_func_map. intros H. apply elem_of_list_to_map_2 in H.
  repeat (apply elem_of_cons in H as [H|H]; [by simplify_eq|]).
  by apply elem_of_nil in H.
Qed.

Lemma known_not_directive tok op :
  known_op tok = Some op -> is_wait tok = false /\ is_text tok = false.
Proof.
  intros H. apply table_keys_plain in H. unfold is_wait, is_text in *.
  by rewrite upper_lower in H.
Qed.

Lemma execute_command_eq cmd w :
  is_wait cmd = false -> is_text cmd = false ->
  execute_command self cmd w =
  match known_op cmd with
  | Some op =>
      if responds (roku self) (calls w) op
      then (Val true, extend w 1 [Request op true])
      else (Val false,
            extend w 1 [Request op false;
                        Print ("Failed to execute command: " ++ lower cmd)])
  | None => (Val false, w)
  end.
Proof.
  intros Hw Ht. unfold execute_command, known_op.
  rewrite (startswith_raw_false "WAIT:" cmd eq_refl Hw).
  rewrite (startswith_raw_false "TEXT:" cmd eq_refl Ht). cbn [negb orb].
  destruct (cmd_func_map !! lower cmd) as [op|]; [|done].
  unfold catch, catch_if. rewrite bind_eq.
  destruct (responds (roku self) (calls w) op) eqn:E.
  - by rewrite request_ok.
  - rewrite request_fail by done. by mstep.
Qed.

Lemma for_commands_skip rest w :
  for_commands self ("" :: rest) w = for_commands self rest w.
Proof. reflexivity. Qed.

(** one ordinary token: neither empty nor a directive *)
Lemma for_commands_ordinary cmd rest w :
  cmd <> "" -> is_wait (strip cmd) = false -> is_text (strip cmd) = false ->
  for_commands self (cmd :: rest) w =
  match known_op (strip cmd) with
  | Some op =>
      if responds (roku self) (calls w) op
      then for_commands self rest (extend w 1 [Request op true; pause])
      else (Val false,
            extend w 1 [Request op false;
                        Print ("Failed to execute command: " ++ lower (strip cmd))])
  | None => (Val false, w)
  end.
Proof.
  intros Hne Hw Ht. cbn [for_commands].
  rewrite bool_decide_eq_false_2 by done.
  unfold is_wait, is_text in *. rewrite Hw, Ht.
  rewrite bind_eq, (execute_command_eq _ _ Hw Ht).
  destruct (known_op (strip cmd)) as [op|]; [|done].
  destruct (responds (roku self) (calls w) op); [|done].
  simpl. unfold time_sleep; simpl. by mstep.
Qed.

Lemma for_commands_known cmds w :
  (forall n op, responds (roku self) n op = true) ->
  Forall (fun c => strip c = c) cmds ->
  Forall (fun tok => is_Some (known_op tok)) (filter (λ t, t ≠ "") cmds) ->
  exists ops,
    Forall2 (fun tok op => known_op tok = Some op) (filter (λ t, t ≠ "") cmds) ops
    /\ for_commands self cmds w
       = (Val true,
          extend w (List.length ops) (ops ≫= λ op, [Request op true; pause])).
Proof.
  intros Hok Hs. revert w. induction Hs as [|c cmds Hc Hs IH]; intros w Hk.
  - exists []. split; [constructor|]. simpl. by rewrite extend_nil.
  - destruct (decide (c = "")) as [->|Hne].
    + rewrite filter_cons_False in Hk |- * by (intros ?; done).
      rewrite for_commands_skip. by apply IH.
    + rewrite filter_cons_True in Hk |- * by done.
      apply Forall_cons in Hk as [[op Hop] Hk].
      destruct (known_not_directive _ _ Hop) as [Hw Ht].
      rewrite for_commands_ordinary by (by rewrite ?Hc).
      rewrite Hc, Hop, Hok.
      destruct (IH (extend w 1 [Request op true; pause]) Hk) as (ops & Hall & Hrun).
      exists (op :: ops). split; [by constructor|].
      rewrite Hrun, extend_extend. simpl. do 2 f_equal. lia.
Qed.

Lemma split_nonempty sep s : split sep s <> [].
Proof.
  destruct s as [|c s]; simpl; [done|].
  destruct (Ascii.eqb c sep); [done|]. by destruct (split sep s).
Qed.

Lemma split_second sep s :
  sep ∈ chars s -> is_Some (split sep s !! 1%nat).
Proof.
  induction s as [|c s IH]; simpl; intros H; [by apply elem_of_nil in H|].
  destruct (Ascii.eqb_spec c sep) as [->|Hne].
  - pose proof (split_nonempty sep s). destruct (split sep s); [done|]. by eexists.
  - apply elem_of_cons in H as [H|H]; [by subst|].
    specialize (IH H). by destruct (split sep s).
Qed.

Lemma upper_char_colon c : upper_char c = ":"%char -> c = ":"%char.
Proof. destruct c as [[] [] [] [] [] [] [] []]; by vm_compute. Qed.

Lemma wait_has_field tok :
  is_wait tok = true -> is_Some (split ":" tok !! 1%nat).
Proof.
  intros H. apply split_second. unfold is_wait in H.
  destruct tok as [|c1 [|c2 [|c3 [|c4 [|c5 tok]]]]];
    cbn [upper map_chars startswith] in H;
    repeat match type of H with
           | (if Ascii.eqb ?a ?b then _ else _) = true =>
               destruct (Ascii.eqb_spec a b); [|done]
           end; try done.
  cbn [chars]. do 4 apply list_elem_of_further.
  replace c5 with ":"%char by (symmetry; by apply upper_char_colon).
  apply list_elem_of_here.
Qed.

(** one [WAIT:] token *)
Lemma for_commands_wait cmd rest w :
  cmd <> "" -> is_wait (strip cmd) = true ->
  for_commands self (cmd :: rest) w =
  match split ":" (strip cmd) !! 1%nat with
  | None => (Exc IndexError, w)
  | Some field =>
      match PyFloat.float_of_string field with
      | None => (Val false, extend w 0 [Print ("Invalid wait command: " ++ strip cmd)])
      | Some d =>
          match PyFloat.check_sleep d with
          | PyFloat.SleepOk => for_commands self rest (extend w 0 [Sleep d])
          | PyFloat.SleepValueError =>
              (Val false, extend w 0 [Print ("Invalid wait command: " ++ strip cmd)])
          | PyFloat.SleepOverflowError => (Exc OverflowError, w)
          end
      end
  end.
Proof.
  intros Hne Hw. cbn [for_commands].
  rewrite bool_decide_eq_false_2 by done.
  unfold is_wait in Hw. rewrite Hw. rewrite bind_eq.
  unfold catch_if, index, float, time_sleep.
  destruct (split ":" (strip cmd) !! 1%nat) as [field|]; [|done].
  mstep. destruct (PyFloat.float_of_string field) as [d|]; [|by mstep].
  mstep. destruct (PyFloat.check_sleep d); by mstep.
Qed.

Lemma send_literals_run_ops {B} (k : M B) cs w :
  (send_literals (roku self) cs;; request (roku self) Enter;; k) w
  = (run_ops (roku self) (((λ c, Literal (String c EmptyString)) <$> cs) ++ [Enter]);; k) w.
Proof.
  revert w; induction cs as [|c cs IH]; intros w; simpl.
  - mstep. by destruct (request (roku self) Enter w) as [[] ?].
  - rewrite !bind_eq.
    destruct (request (roku self) (Literal (String c "")) w) as [[] w']; try done.
    specialize (IH w'). by rewrite !bind_eq in IH.
Qed.

Lemma run_ops_ok r ops w :
  (forall i op, ops !! i = Some op -> responds r (i + calls w) op = true) ->
  run_ops r ops w = (Val tt, extend w (List.length ops) (sent ops)).
Proof.
  revert w; induction ops as [|op ops IH]; intros w H; simpl.
  - by rewrite mret_eq, extend_nil.
  - rewrite bind_eq, request_ok by apply (H 0%nat op eq_refl).
    rewrite IH.
    + rewrite extend_extend. do 2 f_equal. lia.
    + intros i op' Hi. simpl.
      replace (i + S (calls w))%nat with (S i + calls w)%nat by lia.
      by apply H.
Qed.

Lemma run_ops_fail r ops k op w :
  ops !! k = Some op ->
  (forall i op', (i < k)%nat -> ops !! i = Some op' ->
                 responds r (i + calls w) op' = true) ->
  responds r (k + calls w) op = false ->
  run_ops r ops w
  = (Exc DeviceError, extend w (S k) (sent (take k ops) ++ [Request op false])).
Proof.
  revert w k; induction ops as [|op0 ops IH]; intros w k Hk Hpre Hbad; [done|].
  simpl. rewrite bind_eq. destruct k as [|k].
  - injection Hk as ->. by rewrite request_fail.
  - rewrite request_ok by (apply (Hpre 0%nat); [lia|done]).
    rewrite (IH _ k); [| done | |].
    + rewrite extend_extend. simpl. do 2 f_equal. lia.
    + intros i op' Hi Hop. simpl.
      replace (i + S (calls w))%nat with (S i + calls w)%nat by lia.
      apply Hpre; [lia|done].
    + simpl. by replace (k + S (calls w))%nat with (S k + calls w)%nat by lia.
Qed.

Lemma execute_text_eq text w :
  execute_text self text w =
  match run_ops (roku self) (text_ops text) w with
  | (Val _, w') => (Val true, w')
  | (Exc _, w') => (Val false, extend w' 0 [Print ("Failed to input text: " ++ text)])
  | (Hang, w') => (Hang, w')
  | (OutOfFuel, w') => (OutOfFuel, w')
  end.
Proof.
  unfold execute_text, catch, catch_if, text_ops.
  rewrite send_literals_run_ops, bind_eq.
  destruct (run_ops _ _ w) as [[] w']; by mstep.
Qed.

(** one [TEXT:] token *)
Lemma for_commands_text cmd rest w :
  cmd <> "" -> is_text (strip cmd) = true ->
  for_commands self (cmd :: rest) w =
  match execute_text self (slice_from 5 (strip cmd)) w with
  | (Val true, w') => for_commands self rest w'
  | (Val false, w') => (Val false, w')
  | (Exc e, w') => (Exc e, w')
  | (Hang, w') => (Hang, w')
  | (OutOfFuel, w') => (OutOfFuel, w')
  end.
Proof.
  intros Hne Ht. cbn [for_commands].
  rewrite bool_decide_eq_false_2 by done.
  unfold is_text in Ht. rewrite (text_not_wait _ Ht), Ht, bind_eq.
  by destruct (execute_text _ _ w) as [[[]| | |] w'].
Qed.

Lemma for_commands_app pre l w :
  for_commands self (pre ++ l) w =
  match for_commands self pre w with
  | (Val true, w1) => for_commands self l w1
  | r => r
  end.
Proof.
  revert w; induction pre as [|c pre IH]; intros w; [done|].
  rewrite <- app_comm_cons.
  destruct (decide (c = "")) as [->|Hne]; [by rewrite !for_commands_skip|].
  destruct (is_wait (strip c)) eqn:Hw.
  { rewrite !for_commands_wait by done.
    destruct (split ":" (strip c) !! 1%nat) as [field|]; [|done].
    destruct (PyFloat.float_of_string field) as [d|]; [|done].
    by destruct (PyFloat.check_sleep d). }
  destruct (is_text (strip c)) eqn:Ht.
  { rewrite !for_commands_text by done.
    by destruct (execute_text self _ w) as [[[]| | |] w']. }
  rewrite !for_commands_ordinary by done.
  destruct (known_op (strip c)) as [op|]; [|done].
  by destruct (responds (roku self) (calls w) op).
Qed.

Lemma run_ops_result r ops w :
  (run_ops r ops w).1 = Val tt \/ (run_ops r ops w).1 = Exc DeviceError.
Proof.
  revert w; induction ops as [|op ops IH]; intros w; simpl; [by left|].
  rewrite bind_eq. destruct (responds r (calls w) op) eqn:E.
  - rewrite request_ok by done. apply IH.
  - rewrite request_fail by done. by right.
Qed.

Lemma execute_text_result text w :
  exists b, (execute_text self text w).1 = Val b.
Proof.
  rewrite execute_text_eq.
  destruct (run_ops_result (roku self) (text_ops text) w) as [H|H];
    destruct (run_ops _ _ w) as [[] w']; simplify_eq/=; by eexists.
Qed.

Lemma for_commands_result cmds w : script_outcome (for_commands self cmds w).1.
Proof.
  revert w; induction cmds as [|c cmds IH]; intros w; [done|].
  destruct (decide (c = "")) as [->|Hne]; [by rewrite for_commands_skip|].
  destruct (is_wait (strip c)) eqn:Hw.
  { rewrite for_commands_wait by done.
    destruct (split ":" (strip c) !! 1%nat) as [field|]; [|done].
    destruct (PyFloat.float_of_string field) as [d|]; [|done].
    destruct (PyFloat.check_sleep d); [apply IH | done ..]. }
  destruct (is_text (strip c)) eqn:Ht.
  { rewrite for_commands_text by done.
    destruct (execute_text_result (slice_from 5 (strip c)) w) as [b Hb].
    destruct (execute_text self _ w) as [[[]| | |] w']; simplify_eq/=; [apply IH|done]. }
  rewrite for_commands_ordinary by done.
  destruct (known_op (strip c)) as [op|]; [|done].
  destruct (responds (roku self) (calls w) op); [apply IH|done].
Qed.

Lemma stripped_fixed (script : string) pre tok post :
  strip <$> split "," script = (pre ++ tok :: post)%list -> strip tok = tok.
Proof.
  intros H. assert (Hin : tok ∈ strip <$> split "," script).
  { rewrite H. apply elem_of_app. right. apply list_elem_of_here. }
  apply list_elem_of_fmap in Hin as (t & -> & _). apply strip_idem.
Qed.

End ScriptFacts.

(** * The claims: script mode *)

Section ScriptClaims.
Import PyStr Script.

(** C1. A script whose non-empty trimmed tokens all name symbolic
    commands, run against a device whose operations all succeed,
    invokes exactly one device operation per token, in the order of
    the tokens (each followed by the 0.1 s pause and by nothing else),
    does nothing for the empty tokens, and returns success. *)
Theorem known_commands_run_in_order (self : RokuCLI) (script : string) (w : World) :
  (forall n op, responds (roku self) n op = true) ->
  Forall (fun tok => is_Some (known_op tok)) (tokens script) ->
  exists ops,
    Forall2 (fun tok op => known_op tok = Some op) (tokens script) ops
    /\ parse_and_execute_commands self script w
       = (Val true,
          extend w (List.length ops) (ops ≫= λ op, [Request op true; pause])).
Proof.
  intros Hok Hk. unfold parse_and_execute_commands.
  apply for_commands_known; [done| |done].
  apply Forall_fmap, Forall_forall. intros t _. apply strip_idem.
Qed.

Lemma known_commands_run_in_order_witness :
  exists ops,
    Forall2 (fun tok op => known_op tok = Some op) (tokens " home,,DOWN , Pause") ops
    /\ parse_and_execute_commands (cli box) " home,,DOWN , Pause" world0
       = (Val true,
          extend world0 (List.length ops) (ops ≫= λ op, [Request op true; pause])).
Proof.
  apply (known_commands_run_in_order (cli box) " home,,DOWN , Pause" world0).
  - intros n op. reflexivity.
  - assert (tokens " home,,DOWN , Pause" = ["home"; "DOWN"; "Pause"]) as ->
      by reflexivity.
    repeat (apply Forall_cons; split; [eexists; vm_compute; reflexivity|]).
    constructor.
Defined.

(** C2, as the spec words it, fails: for [WAIT:1:abc] the remainder of
    the token, [1:abc], is no number, yet the interpreter reads only the
    field up to the next colon, sleeps one second and succeeds. *)
Lemma wait_reads_one_field_counterexample :
  is_wait "WAIT:1:abc" = true
  /\ wait_seconds_per_spec "WAIT:1:abc" = None
  /\ parse_and_execute_commands (cli box) "WAIT:1:abc" world0
     = (Val true, {| calls := 0; log := [Sleep (PyFloat.Fin 1 0)] |}).
Proof. by vm_compute. Qed.

(** C2, amended. For a token that case-insensitively begins with
    [WAIT:], the text between the first colon and the next one (or the
    end of the token) is read as a float.  When that text is no float,
    or the float is one that [time.sleep] rejects with a [ValueError]
    (negative, NaN), the interpreter prints the invalid-command error
    and returns failure: no device operation, no further token.  When
    the sleep is accepted, execution is suspended for that duration
    and goes on with the next token. *)
Theorem wait_token (self : RokuCLI) (cmd : string) (rest : list string) (w : World) :
  cmd <> "" -> is_wait (strip cmd) = true ->
  exists field,
    split ":" (strip cmd) !! 1%nat = Some field
    /\ match PyFloat.float_of_string field with
       | None =>
           for_commands self (cmd :: rest) w
           = (Val false, extend w 0 [Print ("Invalid wait command: " ++ strip cmd)])
       | Some d =>
           match PyFloat.check_sleep d with
           | PyFloat.SleepOk =>
               for_commands self (cmd :: rest) w
               = for_commands self rest (extend w 0 [Sleep d])
           | PyFloat.SleepValueError =>
               for_commands self (cmd :: rest) w
               = (Val false, extend w 0 [Print ("Invalid wait command: " ++ strip cmd)])
           | PyFloat.SleepOverflowError => True
           end
       end.
Proof.
  intros Hne Hw. destruct (wait_has_field _ Hw) as [field Hf].
  exists field. split; [done|].
  rewrite for_commands_wait, Hf by done.
  destruct (PyFloat.float_of_string field) as [d|]; [|done].
  by destruct (PyFloat.check_sleep d).
Qed.

Lemma wait_token_witness :
  for_commands (cli box) ["WAIT:0.5"; "home"] world0
  = for_commands (cli box) ["home"] (extend world0 0 [Sleep (PyFloat.Fin 5 (-1))])
  /\ for_commands (cli box) ["WAIT:abc"; "home"] world0
     = (Val false, extend world0 0 [Print "Invalid wait command: WAIT:abc"]).
Proof.
  split.
  - destruct (wait_token (cli box) "WAIT:0.5" ["home"] world0) as (f & Hf & H);
      [done | reflexivity |].
    vm_compute in Hf. injection Hf as <-. exact H.
  - destruct (wait_token (cli box) "WAIT:abc" ["home"] world0) as (f & Hf & H);
      [done | reflexivity |].
    vm_compute in Hf. injection Hf as <-. exact H.
Defined.

(** C3. For a token that case-insensitively begins with [TEXT:], the
    remainder, in its original case, is sent one literal-character
    operation per character, in order, followed by exactly one enter
    operation, and execution goes on with the next token; when one of
    these sends fails, nothing more is sent, the text-input failure is
    printed and the interpreter returns failure without running any
    further token. *)
Theorem text_token (self : RokuCLI) (cmd : string) (rest : list string) (w : World) :
  cmd <> "" -> is_text (strip cmd) = true ->
  let text := slice_from 5 (strip cmd) in
  let ops := text_ops text in
  ((forall i op, ops !! i = Some op -> responds (roku self) (i + calls w) op = true) ->
   for_commands self (cmd :: rest) w
   = for_commands self rest (extend w (List.length ops) (sent ops)))
  /\ (forall k op,
        ops !! k = Some op ->
        (forall i op', (i < k)%nat -> ops !! i = Some op' ->
                       responds (roku self) (i + calls w) op' = true) ->
        responds (roku self) (k + calls w) op = false ->
        for_commands self (cmd :: rest) w
        = (Val false,
           extend w (S k)
             (sent (take k ops)
              ++ [Request op false; Print ("Failed to input text: " ++ text)]))).
Proof.
  intros Hne Ht text ops. split.
  - intros Hok. rewrite for_commands_text, execute_text_eq by done.
    fold text; fold ops. by rewrite run_ops_ok.
  - intros k op Hk Hpre Hbad.
    rewrite for_commands_text, execute_text_eq by done.
    fold text; fold ops. rewrite (run_ops_fail _ _ k op) by done.
    rewrite extend_extend. by rewrite <- app_assoc.
Qed.

Lemma text_token_witness :
  for_commands (cli box) ["text:Hi"; "up"] world0
  = for_commands (cli box) ["up"]
      (extend world0 3
         [Request (Literal "H") true; Request (Literal "i") true; Request Enter true])
  /\ for_commands (cli (unplugged 1)) ["text:Hi"; "up"] world0
     = (Val false,
        extend world0 2
          [Request (Literal "H") true; Request (Literal "i") false;
           Print "Failed to input text: Hi"]).
Proof.
  split.
  - apply (text_token (cli box) "text:Hi" ["up"] world0); [done | reflexivity |].
    intros i op _. reflexivity.
  - apply (text_token (cli (unplugged 1)) "text:Hi" ["up"] world0)
      with (k := 1%nat) (op := Literal "i"); [done | reflexivity | reflexivity | | reflexivity].
    intros i op' Hi _. assert (i = 0%nat) as -> by lia. reflexivity.
Defined.

Lemma run_script_mode (self : RokuCLI) (args : Args) (script : string)
    (keys : list Keystroke) (w : World) :
  command args = Some script -> script <> "" ->
  run args (term self) (Some (roku self)) keys w =
  match parse_and_execute_commands self script w with
  | (Val success, w') => (Exc (SystemExit (if success then 0 else 1)), w')
  | (Exc e, w') => (Exc e, w')
  | (Hang, w') => (Hang, w')
  | (OutOfFuel, w') => (OutOfFuel, w')
  end.
Proof.
  intros Hc Hne. unfold run. rewrite Hc. destruct script as [|c s]; [done|].
  rewrite bind_eq. destruct self as [t r]; simpl.
  by destruct (parse_and_execute_commands _ _ w) as [[] w'].
Qed.

(** C4. When the tokens of a script are [pre], then a non-empty token
    [bad] that is neither a symbolic command nor a WAIT:/TEXT:
    directive, then [post]: the tokens of [pre] are run exactly as they
    are on their own and, once they have all been executed with success,
    the run fails at [bad], which itself has no effect; no token of
    [post] is ever executed; the run never succeeds; in script mode the
    process exits with status 1; and, for any script, script mode exits
    with status 1 when the interpreter returns failure and with status 0
    when it returns success. *)
Theorem unknown_token_aborts (self : RokuCLI) (script : string)
    (pre : list string) (bad : string) (post : list string) (w : World) :
  strip <$> split "," script = (pre ++ bad :: post)%list ->
  unknown bad ->
  parse_and_execute_commands self script w
  = match for_commands self pre w with
    | (Val true, w1) => (Val false, w1)
    | r => r
    end
  /\ (forall w1,
        for_commands self pre w = (Val true, w1) ->
        parse_and_execute_commands self script w = (Val false, w1))
  /\ (forall w', parse_and_execute_commands self script w <> (Val true, w'))
  /\ (forall args keys,
        command args = Some script ->
        exit_status (run args (term self) (Some (roku self)) keys w).1 = Some 1)
  /\ (forall script' args keys success w',
        script' <> "" ->
        command args = Some script' ->
        parse_and_execute_commands self script' w = (Val success, w') ->
        run args (term self) (Some (roku self)) keys w
        = (Exc (SystemExit (if success then 0 else 1)), w')).
Proof.
  intros Htoks (Hne & Hw & Ht & Hun).
  pose proof (stripped_fixed _ _ _ _ Htoks) as Hfix.
  assert (Hbad : forall l w0, for_commands self (bad :: l) w0 = (Val false, w0)).
  { intros l w0. rewrite for_commands_ordinary by (by rewrite ?Hfix).
    by rewrite Hfix, Hun. }
  assert (Hrun : parse_and_execute_commands self script w
                 = match for_commands self pre w with
                   | (Val true, w1) => (Val false, w1)
                   | r => r
                   end).
  { unfold parse_and_execute_commands. rewrite Htoks, for_commands_app.
    destruct (for_commands self pre w) as [[[]| | |] w1]; by rewrite ?Hbad. }
  assert (script <> "") as Hs.
  { intros ->. cbn in Htoks. destruct pre as [|? [|? ?]]; by inversion Htoks. }
  split; [exact Hrun|]. split; [|split; [|split]].
  - intros w1 Hpre. by rewrite Hrun, Hpre.
  - intros w'. rewrite Hrun.
    by destruct (for_commands self pre w) as [[[]| | |] w1].
  - intros args keys Hc. rewrite (run_script_mode self args script) by done.
    rewrite Hrun. pose proof (for_commands_result self pre w) as Hres.
    by destruct (for_commands self pre w) as [[[]|[]| |] w1].
  - intros script' args keys success w' Hs' Hc Hres.
    by rewrite (run_script_mode self args script'), Hres by done.
Qed.

Lemma unknown_token_aborts_witness :
  parse_and_execute_commands (cli box) "home,down,unknowncmd,up" world0
  = (Val false,
     {| calls := 2; log := [Request Home true; pause; Request Down true; pause] |})
  /\ exit_status
       (run {| ipaddr := None; command := Some "home,down,unknowncmd,up" |}
          screen (Some box) [] world0).1
     = Some 1.
Proof.
  destruct (unknown_token_aborts (cli box) "home,down,unknowncmd,up"
              ["home"; "down"] "unknowncmd" ["up"] world0)
    as (_ & Hfail & _ & Hexit & _).
  - reflexivity.
  - repeat split; [done | reflexivity ..].
  - split.
    + apply Hfail. reflexivity.
    + apply (Hexit {| ipaddr := None; command := Some "home,down,unknowncmd,up" |} []).
      reflexivity.
Defined.




End ScriptClaims.

(** * Auxiliary facts: interactive mode *)

Section InteractiveFacts.
Import PyStr Interactive.
Variable self : RokuCLI.

Lemma text_entry_loop_done start cur val keys w :
  val = "KEY_ENTER" \/ val = "KEY_ESCAPE" ->
  text_entry_loop self start cur val keys w = (Val keys, w).
Proof. intros [-> | ->]; by destruct keys. Qed.

Lemma text_entry_loop_step start cur val k rest w :
  val <> "KEY_ENTER" -> val <> "KEY_ESCAPE" ->
  text_entry_loop self start cur val (k :: rest) w =
  if bool_decide (Keys.text k = "") then
    text_entry_loop self start cur (Keys.text k) rest w
  else if Keys.is_sequence k && negb (bool_decide (Keys.name k ∈ allowed_sequences)) then
    text_entry_loop self start cur (Keys.name k) rest w
  else
    let val' := if Keys.is_sequence k then Keys.name k else Keys.text k in
    match text_entry_key self start cur val' w with
    | (Val cur', w') => text_entry_loop self start cur' val' rest w'
    | (Exc e, w') => (Exc e, w')
    | (Hang, w') => (Hang, w')
    | (OutOfFuel, w') => (OutOfFuel, w')
    end.
Proof.
  intros H1 H2. cbn [text_entry_loop].
  rewrite !bool_decide_eq_true_2 by done. cbn [andb].
  destruct (bool_decide (Keys.text k = "")); [done|].
  destruct (Keys.is_sequence k && _); [done|].
  by rewrite bind_eq.
Qed.

Lemma text_entry_key_enter start cur w :
  text_entry_key self start cur "KEY_ENTER" w =
  if responds (roku self) (calls w) Enter
  then (Val cur, extend w 1 [Request Enter true; Flush])
  else (Exc DeviceError, extend w 1 [Request Enter false]).
Proof.
  unfold text_entry_key. rewrite bool_decide_eq_true_2 by done.
  rewrite !bind_eq. destruct (responds _ _ Enter) eqn:E.
  - rewrite request_ok by done. by mstep.
  - by rewrite request_fail.
Qed.

Lemma text_entry_key_escape start cur w :
  text_entry_key self start cur "KEY_ESCAPE" w = (Val cur, extend w 0 [Flush]).
Proof. reflexivity. Qed.

Lemma text_entry_key_backspace start cur name w :
  name = "KEY_DELETE" \/ name = "KEY_BACKSPACE" ->
  text_entry_key self start cur name w =
  if responds (roku self) (calls w) Backspace then
    if start <? cur
    then (Val (cur - 1), extend w 1 [Request Backspace true; Write erase_one; Flush])
    else (Val cur, extend w 1 [Request Backspace true; Flush])
  else (Exc DeviceError, extend w 1 [Request Backspace false]).
Proof.
  intros Hn. unfold text_entry_key.
  assert (bool_decide (name = "KEY_DELETE") || bool_decide (name = "KEY_BACKSPACE") = true)
    as Hb by (destruct Hn as [-> | ->]; reflexivity).
  rewrite Hb. rewrite !bool_decide_eq_false_2 by (destruct Hn as [-> | ->]; done).
  rewrite !bind_eq. destruct (responds _ _ Backspace) eqn:E.
  - rewrite request_ok by done. destruct (start <? cur); by mstep.
  - by rewrite request_fail.
Qed.

Lemma text_entry_key_literal start cur c w :
  text_entry_key self start cur (String c "") w =
  if responds (roku self) (calls w) (Literal (String c ""))
  then (Val (cur + 1),
        extend w 1 [Request (Literal (String c "")) true; Write (String c ""); Flush])
  else (Exc DeviceError, extend w 1 [Request (Literal (String c "")) false]).
Proof.
  unfold text_entry_key.
  rewrite !bool_decide_eq_false_2 by done. cbn [orb].
  rewrite !bind_eq. destruct (responds _ _ (Literal _)) eqn:E.
  - rewrite request_ok by done. by mstep.
  - by rewrite request_fail.
Qed.

Lemma text_entry_eq keys w :
  text_entry self keys w =
  match text_entry_loop self (get_location (term self)).2 (get_location (term self)).2
          "" keys (extend w 0 [Write "Enter text (<Esc> to abort) : "; Flush]) with
  | (Val rest, w') =>
      (Val rest, extend w' 0 [WriteClearBol; WriteMove (height (term self)) 0; Flush])
  | (Exc e, w') => (Exc e, w')
  | (Hang, w') => (Hang, w')
  | (OutOfFuel, w') => (OutOfFuel, w')
  end.
Proof.
  unfold text_entry. mstep.
  destruct (text_entry_loop self _ _ "" keys _) as [[] w']; by mstep.
Qed.

Lemma main_loop_quit fuel table val keys w :
  lower val = "q" -> main_loop fuel self table val keys w = (Val keys, w).
Proof.
  intros H. destruct fuel; cbn [main_loop]; by rewrite bool_decide_eq_false_2 by (by intros ?).
Qed.

Lemma main_loop_step fuel table val k rest w :
  lower val <> "q" -> Keys.text k <> "" ->
  main_loop (S fuel) self table val (k :: rest) w =
  let val' := if Keys.is_sequence k then Keys.name k else Keys.text k in
  match table !! val' with
  | Some b =>
      match invoke self b rest w with
      | (Val rest', w') => main_loop fuel self table val' rest' w'
      | (Exc e, w') =>
          (Exc (SystemExit 1), extend w' 0 [Print (unreachable_message (roku self))])
      | (Hang, w') => (Hang, w')
      | (OutOfFuel, w') => (OutOfFuel, w')
      end
  | None => main_loop fuel self table val' rest w
  end.
Proof.
  intros Hq Hk. cbn [main_loop].
  rewrite bool_decide_eq_true_2 by done.
  rewrite (bool_decide_eq_false_2 (Keys.text k = "")) by done.
  cbn zeta. destruct (table !! _) as [b|]; [|done].
  rewrite bind_eq. unfold catch, catch_if.
  by destruct (invoke self b rest w) as [[] w'].
Qed.

(** *** Counting requests against key events *)

Lemma nreq_extend w n es :
  nreq (extend w n es) = (nreq w + List.length (requests es))%nat.
Proof. unfold nreq, extend; simpl. by rewrite requests_app, length_app. Qed.

Lemma text_entry_key_count start cur val w :
  (nreq w <= nreq (text_entry_key self start cur val w).2 <= S (nreq w))%nat
  /\ (text_entry_key self start cur val w).1 <> OutOfFuel
  /\ (text_entry_key self start cur val w).1 <> Hang.
Proof.
  unfold text_entry_key.
  repeat match goal with
         | |- context [bool_decide ?P] => destruct (bool_decide P)
         end; cbn [orb];
    rewrite !bind_eq; rewrite ?mret_eq;
    try match goal with
        | |- context [request ?r ?op w] =>
            destruct (responds r (calls w) op) eqn:E;
            [rewrite (request_ok r op w E) | rewrite (request_fail r op w E)]
        end;
    try destruct (start <? cur); mstep; cbn [fst snd];
    rewrite ?nreq_extend; simpl; (split; [lia | done]).
Qed.

Lemma text_entry_loop_count start cur val keys w :
  (nreq w <= nreq (text_entry_loop self start cur val keys w).2)%nat
  /\ (nreq (text_entry_loop self start cur val keys w).2
      + unread (text_entry_loop self start cur val keys w).1
      <= nreq w + List.length keys)%nat
  /\ (text_entry_loop self start cur val keys w).1 <> OutOfFuel.
Proof.
  revert cur val w. induction keys as [|k rest IH]; intros cur val w.
  - cbn [text_entry_loop]. destruct (_ && _); cbn; (split; [lia | split; [lia | done]]).
  - destruct (decide (val = "KEY_ENTER")) as [H1|H1];
      [rewrite text_entry_loop_done by auto; cbn; (split; [lia | split; [lia | done]])|].
    destruct (decide (val = "KEY_ESCAPE")) as [H2|H2];
      [rewrite text_entry_loop_done by auto; cbn; (split; [lia | split; [lia | done]])|].
    rewrite text_entry_loop_step by done.
    destruct (bool_decide (Keys.text k = "")).
    { destruct (IH cur (Keys.text k) w) as (? & ? & ?). cbn [List.length].
      split; [done | split; [lia | done]]. }
    destruct (Keys.is_sequence k && _).
    { destruct (IH cur (Keys.name k) w) as (? & ? & ?). cbn [List.length].
      split; [done | split; [lia | done]]. }
    cbn zeta. set (val' := if Keys.is_sequence k then _ else _).
    pose proof (text_entry_key_count start cur val' w) as (Hk & Hf & Hh).
    destruct (text_entry_key self start cur val' w) as [[cur'| | |] w'];
      cbn [fst snd] in *; cbn [List.length unread]; try done;
      try (split; [lia | split; [lia | done]]).
    destruct (IH cur' val' w') as (? & ? & ?).
    split; [lia | split; [lia | done]].
Qed.

Lemma text_entry_count keys w :
  (nreq w <= nreq (text_entry self keys w).2)%nat
  /\ (nreq (text_entry self keys w).2 + unread (text_entry self keys w).1
      <= nreq w + List.length keys)%nat
  /\ (text_entry self keys w).1 <> OutOfFuel.
Proof.
  rewrite text_entry_eq.
  set (w0 := extend w 0 _).
  pose proof (text_entry_loop_count (get_location (term self)).2
                (get_location (term self)).2 "" keys w0) as (H1 & H2 & H3).
  assert (nreq w0 = nreq w) as Hw0 by (unfold w0; rewrite nreq_extend; simpl; lia).
  destruct (text_entry_loop self _ _ "" keys w0) as [[rest'| | |] w'];
    cbn [fst snd unread] in *;
    rewrite ?nreq_extend; simpl; (split; [lia | split; [lia | done]]).
Qed.

Lemma invoke_count b rest w :
  (nreq w <= nreq (invoke self b rest w).2)%nat
  /\ (nreq (invoke self b rest w).2 + unread (invoke self b rest w).1
      <= nreq w + S (List.length rest))%nat
  /\ (unread (invoke self b rest w).1 <= List.length rest)%nat
  /\ (invoke self b rest w).1 <> OutOfFuel.
Proof.
  destruct b as [op|]; unfold invoke.
  - rewrite bind_eq. destruct (responds (roku self) (calls w) op) eqn:E;
      [rewrite request_ok by done | rewrite request_fail by done];
      mstep; cbn [fst snd unread]; rewrite nreq_extend; simpl;
      (split; [lia | split; [lia | split; [lia | done]]]).
  - pose proof (text_entry_count rest w) as (? & ? & ?).
    split; [done | split; [lia | split; [lia | done]]].
Qed.

(** every key event leads to at most one device operation *)
Lemma main_loop_count fuel table val keys w :
  (nreq (main_loop fuel self table val keys w).2
   + unread (main_loop fuel self table val keys w).1
   <= nreq w + List.length keys)%nat.
Proof.
  revert val keys w. induction fuel as [|fuel IH]; intros val keys w.
  - cbn [main_loop]. destruct (bool_decide _); cbn; lia.
  - destruct (decide (lower val = "q")) as [Hq|Hq];
      [rewrite main_loop_quit by done; cbn; lia|].
    destruct keys as [|k rest].
    { cbn [main_loop]. rewrite bool_decide_eq_true_2 by done. cbn; lia. }
    destruct (decide (Keys.text k = "")) as [Hk|Hk].
    { cbn [main_loop]. rewrite bool_decide_eq_true_2 by done.
      rewrite (bool_decide_eq_true_2 (Keys.text k = "")) by done.
      specialize (IH (Keys.text k) rest w). cbn [List.length]. lia. }
    rewrite main_loop_step by done. cbn zeta.
    set (val' := if Keys.is_sequence k then _ else _).
    destruct (table !! val') as [b|];
      [|specialize (IH val' rest w); cbn [List.length]; lia].
    pose proof (invoke_count b rest w) as (H1 & H2 & _).
    destruct (invoke self b rest w) as [[rest'| | |] w'];
      cbn [fst snd unread List.length] in *; rewrite ?nreq_extend; simpl; try lia.
    specialize (IH val' rest' w'). lia.
Qed.

(** *** The iteration bound is never reached *)

Lemma main_loop_fuel_enough fuel table val keys w :
  (List.length keys < fuel)%nat ->
  (main_loop fuel self table val keys w).1 <> OutOfFuel.
Proof.
  revert val keys w. induction fuel as [|fuel IH]; intros val keys w Hlen; [lia|].
  destruct (decide (lower val = "q")) as [Hq|Hq];
    [by rewrite main_loop_quit by done|].
  destruct keys as [|k rest].
  { cbn [main_loop]. by rewrite bool_decide_eq_true_2 by done. }
  cbn [List.length] in Hlen.
  destruct (decide (Keys.text k = "")) as [Hk|Hk].
  { cbn [main_loop]. rewrite bool_decide_eq_true_2 by done.
    rewrite (bool_decide_eq_true_2 (Keys.text k = "")) by done.
    apply IH. lia. }
  rewrite main_loop_step by done. cbn zeta.
  set (val' := if Keys.is_sequence k then _ else _).
  destruct (table !! val') as [b|]; [|apply IH; lia].
  pose proof (invoke_count b rest w) as (_ & _ & H3 & H4).
  destruct (invoke self b rest w) as [[rest'| | |] w'];
    cbn [fst snd unread] in *; try done.
  apply IH. lia.
Qed.

End InteractiveFacts.

(** * The claims: interactive mode *)

Section InteractiveClaims.
Import PyStr Interactive.

Lemma run_interactive_mode (self : RokuCLI) (args : Args)
    (keys : list Keystroke) (w : World) :
  command args = None \/ command args = Some "" ->
  let is_tv := bool_decide (roku_type (roku self) = "TV") in
  run args (term self) (Some (roku self)) keys w =
  match main_loop (S (List.length keys)) self (cmd_func_map is_tv) "" keys
          (extend w 0 [Print (device_info (roku self));
                       Print (if is_tv then tv_usage_menu else default_usage_menu)]) with
  | (Val _, w') => (Val tt, w')
  | (Exc e, w') => (Exc e, w')
  | (Hang, w') => (Hang, w')
  | (OutOfFuel, w') => (OutOfFuel, w')
  end.
Proof.
  intros Hc is_tv. unfold run. destruct self as [t r]; cbn [term roku].
  assert (match command args with
          | Some (String _ _) => false
          | _ => true
          end = true) as Hm by (destruct Hc as [-> | ->]; done).
  destruct (command args) as [[|c s]|]; try done; mstep; fold is_tv;
    by destruct (main_loop _ _ _ "" keys _) as [[] w'].
Qed.

(** the interactive loop always leaves the iteration bound unused *)
Lemma run_never_out_of_fuel (self : RokuCLI) (args : Args)
    (keys : list Keystroke) (w : World) :
  command args = None ->
  (run args (term self) (Some (roku self)) keys w).1 <> OutOfFuel.
Proof.
  intros Hc. rewrite run_interactive_mode by auto. cbn zeta.
  pose proof (main_loop_fuel_enough self (S (List.length keys))
                (cmd_func_map (bool_decide (roku_type (roku self) = "TV"))) "" keys
                (extend w 0 [Print (device_info (roku self));
                             Print (if bool_decide (roku_type (roku self) = "TV")
                                    then tv_usage_menu else default_usage_menu)])
                (Nat.lt_succ_diag_r _)) as H.
  by destruct (main_loop _ _ _ "" keys _) as [[] w'].
Qed.

(** C5, as the spec words it, fails: the table is looked up before the
    loop tests for [q], so with a table that binds [q] the key invokes
    the bound operation, and only then ends the loop. *)
Lemma quit_after_lookup_counterexample :
  main_loop 1 (cli box) (<["q" := Op Home]> (cmd_func_map false)) ""
    [KChar "q"] world0
  = (Val [], {| calls := 1; log := [Request Home true] |}).
Proof. by vm_compute. Qed.

(** C5, amended. For a key event [q] or [Q] read while the loop runs,
    the loop ends at once, with the later keys unread and nothing sent
    to the device, under both tables the program builds (the default
    one and the TV one), as under any table that does not bind the key. *)
Theorem quit_key (self : RokuCLI) (fuel : nat) (val : string) (c : ascii)
    (rest : list Keystroke) (w : World) :
  c = "q"%char \/ c = "Q"%char ->
  lower val <> "q" ->
  (forall is_tv,
      main_loop (S fuel) self (cmd_func_map is_tv) val (KChar c :: rest) w
      = (Val rest, w))
  /\ (forall table : gmap string Binding,
        table !! String c "" = None ->
        main_loop (S fuel) self table val (KChar c :: rest) w = (Val rest, w)).
Proof.
  intros Hc Hval.
  assert (Hgen : forall table : gmap string Binding,
             table !! String c "" = None ->
             main_loop (S fuel) self table val (KChar c :: rest) w = (Val rest, w)).
  { intros table Hnone. rewrite main_loop_step by done. cbn. rewrite Hnone.
    apply main_loop_quit. by destruct Hc as [-> | ->]. }
  split; [|done].
  intros is_tv. apply Hgen. by destruct Hc as [-> | ->], is_tv; vm_compute.
Qed.

Lemma quit_key_witness :
  main_loop 3 (cli tv) (cmd_func_map true) "h" [KChar "Q"; KChar "h"] world0
  = (Val [KChar "h"], world0).
Proof.
  destruct (quit_key (cli tv) 2 "h" "Q" [KChar "h"] world0) as [H _];
    [by right | done |].
  exact (H true).
Defined.

(** C6. In the interactive loop, when the operation bound to the key
    just read raises, the program prints the connectivity error naming
    the host and port of the device and exits with status 1: the
    operation was attempted once, nothing is retried, no further key is
    read.  And over any run of the loop, the device operations
    attempted number at most the key events read. *)
Theorem device_failure_is_fatal (self : RokuCLI) (fuel : nat)
    (table : gmap string Binding) (val : string) (k : Keystroke)
    (rest : list Keystroke) (w : World) (op : DevOp) :
  lower val <> "q" ->
  Keys.text k <> "" ->
  table !! key_val k = Some (Op op) ->
  responds (roku self) (calls w) op = false ->
  main_loop (S fuel) self table val (k :: rest) w
  = (Exc (SystemExit 1),
     extend w 1 [Request op false;
                 Print ("Unable to communicate with roku at "
                          ++ host (roku self) ++ ":" ++ port (roku self))])
  /\ exit_status (main_loop (S fuel) self table val (k :: rest) w).1 = Some 1
  /\ (forall fuel' table' val' keys w',
        (nreq (main_loop fuel' self table' val' keys w').2
         + unread (main_loop fuel' self table' val' keys w').1
         <= nreq w' + List.length keys)%nat).
Proof.
  intros Hval Hk Hb Hdown.
  assert (main_loop (S fuel) self table val (k :: rest) w
          = (Exc (SystemExit 1),
             extend w 1 [Request op false;
                         Print (unreachable_message (roku self))])) as Hrun.
  { rewrite main_loop_step by done. cbn zeta. fold (key_val k). rewrite Hb.
    unfold invoke. rewrite bind_eq, request_fail by done. by mstep. }
  split; [exact Hrun | split; [by rewrite Hrun|]].
  intros. apply main_loop_count.
Qed.

Lemma device_failure_is_fatal_witness :
  main_loop 2 (cli (unplugged 0)) (cmd_func_map false) "" [KSeq "KEY_UP"; KChar "h"] world0
  = (Exc (SystemExit 1),
     extend world0 1 [Request Up false;
                      Print "Unable to communicate with roku at 192.168.1.22:8060"]).
Proof.
  destruct (device_failure_is_fatal (cli (unplugged 0)) 1 (cmd_func_map false) ""
              (KSeq "KEY_UP") [KChar "h"] world0 Up) as [H _];
    [done | done | by vm_compute | done |].
  exact H.
Defined.

(** C7. In the text entry sub-mode, a delete or backspace key always
    sends the device's backspace operation; the three erasing
    characters are written and the column counter goes down by one
    only when the current column is strictly right of the starting
    column; otherwise (in particular when both are equal) the
    operation is sent all the same, nothing is erased and the counter
    stays. *)
Theorem backspace_always_sent (self : RokuCLI) (start_column cur_column : Z)
    (val name : string) (rest : list Keystroke) (w : World) :
  val <> "KEY_ENTER" -> val <> "KEY_ESCAPE" ->
  name = "KEY_DELETE" \/ name = "KEY_BACKSPACE" ->
  (responds (roku self) (calls w) Backspace = true ->
   (start_column < cur_column ->
    text_entry_loop self start_column cur_column val (KSeq name :: rest) w
    = text_entry_loop self start_column (cur_column - 1) name rest
        (extend w 1 [Request Backspace true; Write erase_one; Flush]))
   /\ (cur_column <= start_column ->
       text_entry_loop self start_column cur_column val (KSeq name :: rest) w
       = text_entry_loop self start_column cur_column name rest
           (extend w 1 [Request Backspace true; Flush])))
  /\ (responds (roku self) (calls w) Backspace = false ->
      text_entry_loop self start_column cur_column val (KSeq name :: rest) w
      = (Exc DeviceError, extend w 1 [Request Backspace false])).
Proof.
  intros H1 H2 Hn.
  assert (text_entry_loop self start_column cur_column val (KSeq name :: rest) w
          = match text_entry_key self start_column cur_column name w with
            | (Val cur', w') => text_entry_loop self start_column cur' name rest w'
            | (Exc e, w') => (Exc e, w')
            | (Hang, w') => (Hang, w')
            | (OutOfFuel, w') => (OutOfFuel, w')
            end) as Hstep.
  { rewrite text_entry_loop_step by done. cbn [Keys.text Keys.is_sequence Keys.name].
    rewrite bool_decide_eq_false_2 by done.
    rewrite (bool_decide_eq_true_2 (name ∈ allowed_sequences))
      by (destruct Hn as [-> | ->]; by vm_compute).
    done. }
  rewrite Hstep, text_entry_key_backspace by done.
  split.
  - intros ->. split; intros Hcol.
    + by rewrite (proj2 (Z.ltb_lt _ _) Hcol).
    + by rewrite (proj2 (Z.ltb_ge _ _) Hcol).
  - by intros ->.
Qed.

Lemma backspace_always_sent_witness :
  text_entry_loop (cli box) 30 30 "" [KSeq "KEY_BACKSPACE"; KSeq "KEY_ESCAPE"] world0
  = text_entry_loop (cli box) 30 30 "KEY_BACKSPACE" [KSeq "KEY_ESCAPE"]
      (extend world0 1 [Request Backspace true; Flush])
  /\ text_entry_loop (cli box) 30 31 "a" [KSeq "KEY_DELETE"; KSeq "KEY_ESCAPE"] world0
     = text_entry_loop (cli box) 30 (31 - 1) "KEY_DELETE" [KSeq "KEY_ESCAPE"]
         (extend world0 1 [Request Backspace true; Write erase_one; Flush]).
Proof.
  split.
  - destruct (backspace_always_sent (cli box) 30 30 "" "KEY_BACKSPACE"
                [KSeq "KEY_ESCAPE"] world0) as [H _]; [done | done | by right |].
    apply H; [reflexivity | lia].
  - destruct (backspace_always_sent (cli box) 30 31 "a" "KEY_DELETE"
                [KSeq "KEY_ESCAPE"] world0) as [H _]; [done | done | by left |].
    apply H; [reflexivity | lia].
Defined.

Lemma main_loop_ends_at_q (self : RokuCLI) (fuel : nat) (table : gmap string Binding)
    (val : string) (rest : list Keystroke) (w : World) :
  table !! "q" = None -> lower val <> "q" ->
  main_loop (S fuel) self table val (KChar "q" :: rest) w = (Val rest, w).
Proof.
  intros Hnone Hval. rewrite main_loop_step by done. cbn.
  rewrite Hnone. by apply main_loop_quit.
Qed.

(** [n] presses of a key bound to a device operation that succeeds *)
Lemma main_loop_bound_presses (self : RokuCLI) (table : gmap string Binding)
    (c : ascii) (op : DevOp) (n : nat) :
  table !! String c "" = Some (Op op) ->
  lower (String c "") <> "q" ->
  forall fuel val tail w,
    lower val <> "q" ->
    (forall i, (i < n)%nat -> responds (roku self) (i + calls w) op = true) ->
    main_loop (n + fuel) self table val (replicate n (KChar c) ++ tail) w
    = main_loop fuel self table (match n with O => val | S _ => String c "" end) tail
        (extend w n (replicate n (Request op true))).
Proof.
  intros Hb Hc. induction n as [|n IH]; intros fuel val tail w Hval Hok.
  { cbn. by rewrite extend_nil. }
  cbn [Nat.add replicate app]. rewrite main_loop_step by done. cbn.
  rewrite Hb. unfold invoke. rewrite bind_eq.
  rewrite request_ok by (apply (Hok 0%nat); lia). mstep.
  rewrite IH; [|done|].
  - rewrite extend_extend. replace (n + 1)%nat with (S n) by lia. by destruct n.
  - intros i Hi. cbn [extend calls].
    replace (i + (1 + calls w))%nat with (S i + calls w)%nat by lia.
    apply Hok. lia.
Qed.

(** [n] presses of a key the table does not bind *)
Lemma main_loop_unbound_presses (self : RokuCLI) (table : gmap string Binding)
    (c : ascii) (n : nat) :
  table !! String c "" = None ->
  lower (String c "") <> "q" ->
  forall fuel val tail w,
    lower val <> "q" ->
    main_loop (n + fuel) self table val (replicate n (KChar c) ++ tail) w
    = main_loop fuel self table (match n with O => val | S _ => String c "" end) tail w.
Proof.
  intros Hb Hc. induction n as [|n IH]; intros fuel val tail w Hval; [done|].
  cbn [Nat.add replicate app]. rewrite main_loop_step by done. cbn.
  rewrite Hb, IH by done. by destruct n.
Qed.

(** C8. The table the loop works with is the one chosen from the
    device's type flag before the loop starts, and it stays the same for
    the whole loop.  [V], [v] and [M] are bound (to volume-up,
    volume-down and volume-mute) in the TV table only, the two tables
    agreeing on every other key.  So on a device that is not a TV,
    pressing one of these keys any number of times and then [q] ends the
    loop with nothing sent, printed or written; on a TV, each press
    sends the bound volume operation, and nothing else happens.  The
    same holds of [run] in interactive mode, after its two prints. *)
Theorem volume_keys_tv_only (self : RokuCLI) (fuel n : nat) (val : string)
    (c : ascii) (op : DevOp) (rest : list Keystroke) (w : World) :
  lower val <> "q" ->
  (c = "V"%char /\ op = VolumeUp
   \/ c = "v"%char /\ op = VolumeDown
   \/ c = "M"%char /\ op = VolumeMute) ->
  let is_tv := bool_decide (roku_type (roku self) = "TV") in
  let table := cmd_func_map is_tv in
  let keys := (replicate n (KChar c) ++ KChar "q" :: rest)%list in
  (cmd_func_map true !! String c "" = Some (Op op)
   /\ cmd_func_map false !! String c "" = None
   /\ forall key, key <> "V" -> key <> "v" -> key <> "M" ->
                  cmd_func_map true !! key = cmd_func_map false !! key)
  /\ (roku_type (roku self) <> "TV" ->
      main_loop (n + S fuel) self table val keys w = (Val rest, w))
  /\ (roku_type (roku self) = "TV" ->
      (forall i, (i < n)%nat -> responds (roku self) (i + calls w) op = true) ->
      main_loop (n + S fuel) self table val keys w
      = (Val rest, extend w n (replicate n (Request op true))))
  /\ (forall args,
        command args = None \/ command args = Some "" ->
        (roku_type (roku self) <> "TV" ->
         run args (term self) (Some (roku self)) keys w
         = (Val tt,
            extend w 0 [Print (device_info (roku self)); Print default_usage_menu]))
        /\ (roku_type (roku self) = "TV" ->
            (forall i, (i < n)%nat -> responds (roku self) (i + calls w) op = true) ->
            run args (term self) (Some (roku self)) keys w
            = (Val tt,
               extend w n
                 ([Print (device_info (roku self)); Print tv_usage_menu]
                  ++ replicate n (Request op true))))).
Proof.
  intros Hval Hc is_tv table keys.
  assert (cmd_func_map true !! String c "" = Some (Op op)
          /\ cmd_func_map false !! String c "" = None
          /\ lower (String c "") <> "q") as (Htv & Hbox & Hcq)
    by (destruct Hc as [[-> ->]|[[-> ->]|[-> ->]]]; by vm_compute).
  assert (forall b, cmd_func_map b !! "q" = None) as Hq by (by intros []; vm_compute).
  assert (forall v, lower v <> "q" ->
                    lower (match n with O => v | S _ => String c "" end) <> "q")
    as Hlast by (intros v Hv; by destruct n).
  assert (Hloop_box : forall fuel0 val0 w0,
             roku_type (roku self) <> "TV" -> lower val0 <> "q" ->
             main_loop (n + S fuel0) self table val0 keys w0 = (Val rest, w0)).
  { intros fuel0 val0 w0 Hty Hv. unfold keys, table, is_tv.
    rewrite bool_decide_eq_false_2 by done.
    rewrite (main_loop_unbound_presses self _ c n Hbox Hcq) by done.
    apply main_loop_ends_at_q; auto. }
  assert (Hloop_tv : forall fuel0 val0 w0,
             roku_type (roku self) = "TV" -> lower val0 <> "q" ->
             (forall i, (i < n)%nat -> responds (roku self) (i + calls w0) op = true) ->
             main_loop (n + S fuel0) self table val0 keys w0
             = (Val rest, extend w0 n (replicate n (Request op true)))).
  { intros fuel0 val0 w0 Hty Hv Hok. unfold keys, table, is_tv.
    rewrite bool_decide_eq_true_2 by done.
    rewrite (main_loop_bound_presses self _ c op n Htv Hcq) by done.
    apply main_loop_ends_at_q; auto. }
  split; [|split; [|split]].
  - split; [done|]. split; [done|].
    intros key H1 H2 H3. unfold cmd_func_map. lazy beta zeta iota.
    by rewrite !lookup_insert_ne by done.
  - intros Hty. by apply Hloop_box.
  - intros Hty Hok. by apply Hloop_tv.
  - intros args Hargs.
    assert (S (List.length keys) = (n + S (S (List.length rest)))%nat) as Hlen.
    { unfold keys. rewrite length_app, length_replicate. cbn. lia. }
    split.
    + intros Hty. rewrite run_interactive_mode by done. cbn zeta.
      fold is_tv. fold table. rewrite Hlen, Hloop_box by done.
      unfold is_tv. by rewrite bool_decide_eq_false_2.
    + intros Hty Hok. rewrite run_interactive_mode by done. cbn zeta.
      fold is_tv. fold table. rewrite Hlen, Hloop_tv by done.
      unfold is_tv. rewrite bool_decide_eq_true_2 by done.
      rewrite extend_extend. f_equal. unfold extend. f_equal. lia.
Qed.

Lemma volume_keys_tv_only_witness :
  main_loop (1 + 1) (cli box) (cmd_func_map false) ""
    ([KChar "V"] ++ [KChar "q"; KChar "h"]) world0
  = (Val [KChar "h"], world0)
  /\ main_loop (2 + 1) (cli tv) (cmd_func_map true) ""
       ([KChar "V"; KChar "V"] ++ [KChar "q"; KChar "h"]) world0
     = (Val [KChar "h"], extend world0 2 [Request VolumeUp true; Request VolumeUp true]).
Proof.
  split.
  - destruct (volume_keys_tv_only (cli box) 0 1 "" "V" VolumeUp [KChar "h"] world0)
      as (_ & H & _); [done | by left |]. by apply H.
  - destruct (volume_keys_tv_only (cli tv) 0 2 "" "V" VolumeUp [KChar "h"] world0)
      as (_ & _ & H & _); [done | by left |]. by apply H.
Defined.

(** C10. Inside the text entry sub-mode nothing catches a failing
    device operation: the failure of a literal-character, backspace or
    enter operation leaves [text_entry] as an exception, reaches the
    handler of the interactive loop, and ends the process with the
    connectivity message and exit status 1.  The same failure under a
    script-mode TEXT directive is caught inside [execute_text], which
    prints the text-input failure and returns false. *)
Theorem text_entry_failure_is_fatal (self : RokuCLI) :
  (forall start cur val k op rest w,
      val <> "KEY_ENTER" -> val <> "KEY_ESCAPE" ->
      (k = KSeq "KEY_ENTER" /\ op = Enter
       \/ (k = KSeq "KEY_DELETE" \/ k = KSeq "KEY_BACKSPACE") /\ op = Backspace
       \/ exists c, k = KChar c /\ op = Literal (String c "")) ->
      responds (roku self) (calls w) op = false ->
      text_entry_loop self start cur val (k :: rest) w
      = (Exc DeviceError, extend w 1 [Request op false]))
  /\ (forall keys w e w1,
        text_entry_loop self (get_location (term self)).2 (get_location (term self)).2
          "" keys (extend w 0 [Write "Enter text (<Esc> to abort) : "; Flush])
        = (Exc e, w1) ->
        text_entry self keys w = (Exc e, w1))
  /\ (forall fuel is_tv val rest w e w1,
        lower val <> "q" ->
        text_entry self rest w = (Exc e, w1) ->
        main_loop (S fuel) self (cmd_func_map is_tv) val (KChar "/" :: rest) w
        = (Exc (SystemExit 1),
           extend w1 0 [Print ("Unable to communicate with roku at "
                                 ++ host (roku self) ++ ":" ++ port (roku self))])
        /\ exit_status
             (main_loop (S fuel) self (cmd_func_map is_tv) val (KChar "/" :: rest) w).1
           = Some 1)
  /\ (forall text k op w,
        text_ops text !! k = Some op ->
        (forall i op', (i < k)%nat -> text_ops text !! i = Some op' ->
                       responds (roku self) (i + calls w) op' = true) ->
        responds (roku self) (k + calls w) op = false ->
        Script.execute_text self text w
        = (Val false,
           extend w (S k)
             (sent (take k (text_ops text))
              ++ [Request op false; Print ("Failed to input text: " ++ text)]))).
Proof.
  split; [|split; [|split]].
  - intros start cur val k op rest w H1 H2 Hk Hdown.
    rewrite text_entry_loop_step by done.
    destruct Hk as [[-> ->] | [[[-> | ->] ->] | (c & -> & ->)]];
      cbn [Keys.text Keys.is_sequence Keys.name];
      rewrite bool_decide_eq_false_2 by done.
    + rewrite bool_decide_eq_true_2 by by vm_compute. cbn [andb negb].
      by rewrite text_entry_key_enter, Hdown.
    + rewrite bool_decide_eq_true_2 by by vm_compute. cbn [andb negb].
      by rewrite text_entry_key_backspace, Hdown by auto.
    + rewrite bool_decide_eq_true_2 by by vm_compute. cbn [andb negb].
      by rewrite text_entry_key_backspace, Hdown by auto.
    + cbn [andb]. by rewrite text_entry_key_literal, Hdown.
  - intros keys w e w1 Hloop. by rewrite text_entry_eq, Hloop.
  - intros fuel is_tv val rest w e w1 Hval Hraise.
    assert (main_loop (S fuel) self (cmd_func_map is_tv) val (KChar "/" :: rest) w
            = (Exc (SystemExit 1),
               extend w1 0 [Print (unreachable_message (roku self))])) as Hrun.
    { rewrite main_loop_step by done. cbn.
      replace (cmd_func_map is_tv !! "/") with (Some TextEntry)
        by (by destruct is_tv; vm_compute).
      unfold invoke. by rewrite Hraise. }
    by rewrite Hrun.
  - intros text k op w Hk Hpre Hdown.
    rewrite execute_text_eq, (run_ops_fail _ _ k op) by done.
    rewrite extend_extend. by rewrite <- app_assoc.
Qed.

Lemma text_entry_failure_is_fatal_witness :
  main_loop 3 (cli (unplugged 1)) (cmd_func_map false) ""
    [KChar "/"; KChar "H"; KChar "i"; KSeq "KEY_ENTER"] world0
  = (Exc (SystemExit 1),
     extend world0 2
       [Write "Enter text (<Esc> to abort) : "; Flush;
        Request (Literal "H") true; Write "H"; Flush;
        Request (Literal "i") false;
        Print "Unable to communicate with roku at 192.168.1.22:8060"])
  /\ Script.execute_text (cli (unplugged 1)) "Hi" world0
     = (Val false,
        extend world0 2
          [Request (Literal "H") true; Request (Literal "i") false;
           Print "Failed to input text: Hi"]).
Proof.
  destruct (text_entry_failure_is_fatal (cli (unplugged 1))) as (_ & _ & Hloop & Hscript).
  split.
  - exact (proj1 (Hloop 2%nat false "" [KChar "H"; KChar "i"; KSeq "KEY_ENTER"]
                      world0 DeviceError
                      (extend world0 2
                         [Write "Enter text (<Esc> to abort) : "; Flush;
                          Request (Literal "H") true; Write "H"; Flush;
                          Request (Literal "i") false])
                      ltac:(done) eq_refl)).
  - apply (Hscript "Hi" 1%nat (Literal "i") world0); [reflexivity | | reflexivity].
    intros i op' Hi _. assert (i = 0%nat) as -> by lia. reflexivity.
Defined.

End InteractiveClaims.

(** * The worked examples of the spec *)

Section SpecExamples.
Import PyStr Script Interactive.

Example wait_then_home :
  parse_and_execute_commands (cli box) "WAIT:0.5,home" world0
  = (Val true,
     {| calls := 1; log := [Sleep (PyFloat.Fin 5 (-1)); Request Home true; pause] |}).
Proof. by vm_compute. Qed.

Example wait_abc_fails :
  parse_and_execute_commands (cli box) "WAIT:abc" world0
  = (Val false, {| calls := 0; log := [Print "Invalid wait command: WAIT:abc"] |}).
Proof. by vm_compute. Qed.

Example negative_wait_fails :
  parse_and_execute_commands (cli box) "wait:-1,home" world0
  = (Val false, {| calls := 0; log := [Print "Invalid wait command: wait:-1"] |}).
Proof. by vm_compute. Qed.

Example text_hi :
  parse_and_execute_commands (cli box) "TEXT:Hi" world0
  = (Val true,
     {| calls := 3;
        log := [Request (Literal "H") true; Request (Literal "i") true;
                Request Enter true] |}).
Proof. by vm_compute. Qed.

Example escape_sends_no_enter :
  text_entry (cli box) [KChar "a"; KSeq "KEY_ESCAPE"; KChar "h"] world0
  = (Val [KChar "h"],
     {| calls := 1;
        log := [Write "Enter text (<Esc> to abort) : "; Flush;
                Request (Literal "a") true; Write "a"; Flush;
                Flush;
                WriteClearBol; WriteMove 24 0; Flush] |}).
Proof. by vm_compute. Qed.

Example arrows_ignored_in_text_entry :
  text_entry (cli box) [KSeq "KEY_LEFT"; KSeq "KEY_ENTER"] world0
  = (Val [],
     {| calls := 1;
        log := [Write "Enter text (<Esc> to abort) : "; Flush;
                Request Enter true; Flush;
                WriteClearBol; WriteMove 24 0; Flush] |}).
Proof. by vm_compute. Qed.

Example interactive_session :
  run {| ipaddr := None; command := None |} screen (Some tv)
    [KChar "V"; KSeq "KEY_UP"; KChar "x"; KChar "Q"; KChar "h"] world0
  = (Val tt,
     {| calls := 2;
        log := [Print "<Roku: TV>"; Print tv_usage_menu;
                Request VolumeUp true; Request Up true] |}).
Proof. by vm_compute. Qed.

End SpecExamples.

(** * Further properties: script mode *)

Section MoreStringFacts.
Import PyStr.

Lemma lower_char_idem c : lower_char (lower_char c) = lower_char c.
Proof. by destruct c as [[] [] [] [] [] [] [] []]. Qed.

Lemma is_space_lower_char c : is_space (lower_char c) = is_space c.
Proof. by destruct c as [[] [] [] [] [] [] [] []]. Qed.

Lemma lower_idem s : lower (lower s) = lower s.
Proof.
  induction s as [|c s IH]; [done|].
  unfold lower in *; cbn [map_chars]. by rewrite lower_char_idem, IH.
Qed.

Lemma lower_empty s : lower s = "" <-> s = "".
Proof. by destruct s. Qed.

Lemma lstrip_lower s : lstrip (lower s) = lower (lstrip s).
Proof.
  induction s as [|c s IH]; [done|].
  unfold lower in *; cbn [map_chars lstrip]. rewrite is_space_lower_char.
  by destruct (is_space c).
Qed.

Lemma rstrip_lower s : rstrip (lower s) = lower (rstrip s).
Proof.
  induction s as [|c s IH]; [done|].
  unfold lower in *; cbn [map_chars rstrip]. rewrite IH, is_space_lower_char.
  destruct (rstrip s); cbn [map_chars]; [by destruct (is_space c)|done].
Qed.

Lemma strip_lower s : strip (lower s) = lower (strip s).
Proof. unfold strip. by rewrite lstrip_lower, rstrip_lower. Qed.

Lemma split_append sep s1 s2 :
  split sep (s1 ++ String sep s2) = (split sep s1 ++ split sep s2)%list.
Proof.
  induction s1 as [|c s1 IH].
  - change ("" ++ String sep s2) with (String sep s2). cbn [split].
    by rewrite Ascii.eqb_refl.
  - change (String c s1 ++ String sep s2) with (String c (s1 ++ String sep s2)).
    cbn [split]. destruct (Ascii.eqb c sep); [by rewrite IH|].
    rewrite IH. pose proof (split_nonempty sep s1).
    by destruct (split sep s1).
Qed.

End MoreStringFacts.

Section MoreScriptFacts.
Import PyStr Script.
Variable self : RokuCLI.

Lemma directive_prefix_unbound cmd :
  startswith "TEXT:" cmd || startswith "WAIT:" cmd = true ->
  cmd_func_map !! cmd = None.
Proof.
  intros H. destruct (cmd_func_map !! cmd) as [op|] eqn:E; [|done].
  destruct (table_keys_plain _ _ E) as [Hw Ht]. unfold is_wait, is_text in *.
  apply orb_true_iff in H as [H|H].
  - by rewrite (startswith_upper "TEXT:" cmd eq_refl H) in Ht.
  - by rewrite (startswith_upper "WAIT:" cmd eq_refl H) in Hw.
Qed.

(** the interpreter returns, or the [OverflowError] of a sleep escapes *)
Lemma for_commands_outcome cmds w :
  (exists b, (for_commands self cmds w).1 = Val b)
  \/ (for_commands self cmds w).1 = Exc OverflowError.
Proof.
  revert w; induction cmds as [|c cmds IH]; intros w; [left; by eexists|].
  destruct (decide (c = "")) as [->|Hne]; [by rewrite for_commands_skip|].
  destruct (is_wait (strip c)) eqn:Hw.
  { rewrite for_commands_wait by done.
    destruct (wait_has_field _ Hw) as [field ->].
    destruct (PyFloat.float_of_string field) as [d|]; [|left; by eexists].
    destruct (PyFloat.check_sleep d); [apply IH | left; by eexists | by right]. }
  destruct (is_text (strip c)) eqn:Ht.
  { rewrite for_commands_text by done.
    destruct (execute_text_result self (slice_from 5 (strip c)) w) as [b Hb].
    destruct (execute_text self _ w) as [[[]| | |] w']; simplify_eq/=;
      [apply IH | left; by eexists]. }
  rewrite for_commands_ordinary by done.
  destruct (known_op (strip c)) as [op|]; [|left; by eexists].
  destruct (responds (roku self) (calls w) op); [apply IH | left; by eexists].
Qed.

Lemma for_commands_no_wait cmds w :
  Forall (fun c => is_wait (strip c) = false) cmds ->
  exists b, (for_commands self cmds w).1 = Val b.
Proof.
  intros H. revert w; induction H as [|c cmds Hc H IH]; intros w; [by eexists|].
  destruct (decide (c = "")) as [->|Hne]; [by rewrite for_commands_skip|].
  destruct (is_text (strip c)) eqn:Ht.
  { rewrite for_commands_text by done.
    destruct (execute_text_result self (slice_from 5 (strip c)) w) as [b Hb].
    destruct (execute_text self _ w) as [[[]| | |] w']; simplify_eq/=;
      [apply IH | by eexists]. }
  rewrite for_commands_ordinary by done.
  destruct (known_op (strip c)) as [op|]; [|by eexists].
  destruct (responds (roku self) (calls w) op); [apply IH | by eexists].
Qed.

End MoreScriptFacts.

Section MoreScriptProperties.
Import PyStr Script.

(** X1. When the device operation of a symbolic command raises, the
    interpreter prints the failed-command message with the lower-cased
    name and returns failure at once: no pause, no further token. *)
Theorem command_failure_aborts (self : RokuCLI) (cmd : string)
    (rest : list string) (w : World) (op : DevOp) :
  cmd <> "" ->
  known_op (strip cmd) = Some op ->
  responds (roku self) (calls w) op = false ->
  for_commands self (cmd :: rest) w
  = (Val false,
     extend w 1 [Request op false;
                 Print ("Failed to execute command: " ++ lower (strip cmd))]).
Proof.
  intros Hne Hop Hdown. destruct (known_not_directive _ _ Hop) as [Hw Ht].
  rewrite for_commands_ordinary by done. by rewrite Hop, Hdown.
Qed.

Lemma command_failure_aborts_witness :
  for_commands (cli (unplugged 0)) ["Volume-Up"; "home"] world0
  = (Val false,
     extend world0 1 [Request VolumeUp false;
                      Print "Failed to execute command: volume-up"]).
Proof.
  apply (command_failure_aborts (cli (unplugged 0)) "Volume-Up" ["home"] world0 VolumeUp);
    [done | by vm_compute | done].
Defined.

(** X2. [execute_command] never raises and sends at most one request.
    An argument that starts with the exact prefix [TEXT:] or [WAIT:] is
    not lower-cased and is refused with nothing done.  Otherwise, when
    the lower-cased argument is in the table, its operation is invoked
    once: true is returned if it succeeded, and false, after the
    failed-command message, if it raised; when it is not in the table,
    false is returned with nothing done. *)
Theorem execute_command_outcome (self : RokuCLI) (cmd : string) (w : World) :
  execute_command self cmd w =
  if startswith "TEXT:" cmd || startswith "WAIT:" cmd then (Val false, w)
  else match known_op cmd with
       | Some op =>
           if responds (roku self) (calls w) op
           then (Val true, extend w 1 [Request op true])
           else (Val false,
                 extend w 1 [Request op false;
                             Print ("Failed to execute command: " ++ lower cmd)])
       | None => (Val false, w)
       end.
Proof.
  destruct (startswith "TEXT:" cmd || startswith "WAIT:" cmd) eqn:E.
  - unfold execute_command. rewrite E. cbn [negb].
    by rewrite (directive_prefix_unbound _ E).
  - unfold execute_command, known_op. rewrite E. cbn [negb].
    destruct (cmd_func_map !! lower cmd) as [op|]; [|done].
    unfold catch, catch_if. rewrite bind_eq.
    destruct (responds (roku self) (calls w) op) eqn:Er.
    + by rewrite request_ok.
    + rewrite request_fail by done. by mstep.
Qed.

(** X3. Symbolic command names are case-insensitive: two tokens that are
    equal up to the case of their letters, and are not directives, make
    the interpreter do exactly the same, messages included. *)
Theorem command_names_ignore_case (self : RokuCLI) (c1 c2 : string)
    (rest : list string) (w : World) :
  lower c1 = lower c2 ->
  is_wait (strip c1) = false -> is_text (strip c1) = false ->
  for_commands self (c1 :: rest) w = for_commands self (c2 :: rest) w.
Proof.
  intros Heq Hw Ht.
  destruct (decide (c1 = "")) as [->|Hne].
  { assert (c2 = "") as -> by (apply lower_empty; by rewrite <- Heq). done. }
  assert (c2 <> "") as Hne2.
  { intros ->. apply Hne, lower_empty. by rewrite Heq. }
  assert (lower (strip c1) = lower (strip c2)) as Hs
    by by rewrite <- !strip_lower, Heq.
  assert (upper (strip c1) = upper (strip c2)) as Hu
    by by rewrite <- (upper_lower (strip c1)), Hs, upper_lower.
  unfold is_wait, is_text in *.
  rewrite !for_commands_ordinary by (by rewrite ?Hne, ?Hne2; unfold is_wait, is_text;
                                     rewrite <- ?Hu).
  unfold known_op. by rewrite Hs.
Qed.

Lemma command_names_ignore_case_witness :
  for_commands (cli box) [" HoMe"; "up"] world0
  = for_commands (cli box) [" home"; "up"] world0.
Proof.
  by apply (command_names_ignore_case (cli box) " HoMe" " home" ["up"] world0).
Defined.

(** X4. Scripts compose: the script [s1,s2] runs [s1] and, when [s1]
    returned success, goes on with [s2] from the state [s1] left; when
    [s1] failed or raised, that is the outcome and nothing of [s2] runs. *)
Theorem scripts_compose (self : RokuCLI) (s1 s2 : string) (w : World) :
  parse_and_execute_commands self (s1 ++ "," ++ s2) w
  = match parse_and_execute_commands self s1 w with
    | (Val true, w1) => parse_and_execute_commands self s2 w1
    | r => r
    end.
Proof.
  unfold parse_and_execute_commands.
  change (s1 ++ "," ++ s2) with (s1 ++ String "," s2).
  by rewrite split_append, fmap_app, for_commands_app.
Qed.

(** X5. No device failure, unparsable number or missing field escapes
    the interpreter: a run always comes to an end, and when it ends with
    an exception, that exception is none of those the interpreter
    handles (a failure of the device, a [ValueError], an [IndexError])
    and the script holds a WAIT token, whose sleep raised it.  A script
    with no WAIT token always returns a boolean. *)
Theorem interpreter_outcome (self : RokuCLI) (script : string) (w : World) :
  let r := (parse_and_execute_commands self script w).1 in
  (r <> Hang /\ r <> OutOfFuel)
  /\ (forall e,
        r = Exc e ->
        e <> DeviceError /\ e <> ValueError /\ e <> IndexError
        /\ (forall status, e <> SystemExit status)
        /\ Exists (fun tok => is_wait tok = true) (tokens script))
  /\ (Forall (fun tok => is_wait tok = false) (tokens script) ->
      exists b, r = Val b).
Proof.
  intros r.
  assert (Forall (fun tok => is_wait tok = false) (tokens script) ->
          exists b, r = Val b) as Hnowait.
  { intros H. apply for_commands_no_wait.
    apply Forall_fmap, Forall_forall. intros t Ht. cbn. rewrite strip_idem.
    destruct (decide (strip t = "")) as [->|Hne]; [done|].
    unfold tokens in H. rewrite Forall_forall in H. apply H.
    apply list_elem_of_filter. split; [done|]. by apply list_elem_of_fmap_2. }
  pose proof (for_commands_outcome self (strip <$> split "," script) w) as Hout.
  fold (parse_and_execute_commands self script) in Hout. fold r in Hout.
  split; [|split; [|done]].
  - destruct Hout as [[b ->]| ->]; by split.
  - intros e He. destruct Hout as [[b Hb]|Hb]; rewrite Hb in He; [done|].
    injection He as <-. repeat split; try done.
    destruct (decide (Forall (fun tok => is_wait tok = false) (tokens script)))
      as [Hall|Hsome].
    + destruct (Hnowait Hall) as [b Hb']. by rewrite Hb in Hb'.
    + apply not_Forall_Exists in Hsome; [|apply _].
      eapply Exists_impl; [exact Hsome|]. intros tok Htok.
      apply not_false_iff_true. exact Htok.
Qed.

Lemma interpreter_outcome_witness :
  exists b, (parse_and_execute_commands (cli (unplugged 1)) "home,TEXT:a,bogus" world0).1
            = Val b.
Proof.
  apply (interpreter_outcome (cli (unplugged 1)) "home,TEXT:a,bogus" world0).
  assert (tokens "home,TEXT:a,bogus" = ["home"; "TEXT:a"; "bogus"]) as -> by reflexivity.
  by repeat constructor.
Defined.

(** X6. With a non-empty command string [run] never reads a key and
    always ends by leaving the process: what it did is what the
    interpreter did, the exit status is 0 or 1, and it is 0 exactly when
    the interpreter returned success. *)
Theorem script_mode_always_exits (self : RokuCLI) (args : Args) (script : string)
    (keys : list Keystroke) (w : World) :
  command args = Some script -> script <> "" ->
  let r := run args (term self) (Some (roku self)) keys w in
  r = run args (term self) (Some (roku self)) [] w
  /\ r.2 = (parse_and_execute_commands self script w).2
  /\ (exit_status r.1 = Some 0 \/ exit_status r.1 = Some 1)
  /\ (exit_status r.1 = Some 0
      <-> (parse_and_execute_commands self script w).1 = Val true).
Proof.
  intros Hc Hs r. unfold r. rewrite !(run_script_mode self args script) by done.
  destruct (for_commands_outcome self (strip <$> split "," script) w) as [[b Hb]|He];
    fold (parse_and_execute_commands self script) in *;
    destruct (parse_and_execute_commands self script w) as [[[]|e| |] w'];
    simplify_eq/=; repeat split; auto; done.
Qed.

Lemma script_mode_always_exits_witness :
  exit_status
    (run {| ipaddr := Some "192.168.1.20"; command := Some "home,up" |}
       screen (Some box) [KChar "q"] world0).1
  = Some 0.
Proof.
  destruct (script_mode_always_exits (cli box)
              {| ipaddr := Some "192.168.1.20"; command := Some "home,up" |}
              "home,up" [KChar "q"] world0) as (_ & _ & _ & H); [done | done |].
  apply H. reflexivity.
Defined.

End MoreScriptProperties.

(** * Further properties: interactive mode *)

Section MoreInteractiveFacts.
Import PyStr Interactive.
Variable self : RokuCLI.

Lemma requests_satisfy_app P l1 l2 :
  requests_satisfy P l1 -> requests_satisfy P l2 -> requests_satisfy P (l1 ++ l2).
Proof. unfold requests_satisfy. intros. by apply Forall_app. Qed.

Lemma adds_nothing {A} P (m : M A) w : (m w).2 = w -> adds P m w.
Proof. intros H. exists []. rewrite H, app_nil_r. split; [done|constructor]. Qed.

Lemma adds_extend {A} P (m : M A) w n es :
  (m w).2 = extend w n es -> requests_satisfy P es -> adds P m w.
Proof. intros H Hes. exists es. by rewrite H. Qed.

Lemma adds_then {A B} P (m : M A) (k : M B) w (f : M B) :
  adds P m w -> adds P k (m w).2 -> (f w).2 = (k (m w).2).2 -> adds P f w.
Proof.
  intros (a1 & H1 & Hs1) (a2 & H2 & Hs2) Hf. exists (a1 ++ a2)%list.
  rewrite Hf, H2, H1, <- app_assoc. split; [done|]. by apply requests_satisfy_app.
Qed.

Lemma text_entry_key_other start cur val w :
  val <> "KEY_ENTER" -> val <> "KEY_ESCAPE" ->
  val <> "KEY_DELETE" -> val <> "KEY_BACKSPACE" ->
  text_entry_key self start cur val w =
  if responds (roku self) (calls w) (Literal val)
  then (Val (cur + 1), extend w 1 [Request (Literal val) true; Write val; Flush])
  else (Exc DeviceError, extend w 1 [Request (Literal val) false]).
Proof.
  intros H1 H2 H3 H4. unfold text_entry_key.
  rewrite !bool_decide_eq_false_2 by done. cbn [orb].
  rewrite !bind_eq. destruct (responds _ _ (Literal _)) eqn:E.
  - rewrite request_ok by done. by mstep.
  - by rewrite request_fail.
Qed.

Section Invariant.
Variable P : DevOp -> Prop.
Hypothesis P_enter : P Enter.
Hypothesis P_backspace : P Backspace.
Hypothesis P_literal : forall s, P (Literal s).

Lemma text_entry_key_adds start cur val w :
  adds P (text_entry_key self start cur val) w.
Proof.
  destruct (decide (val = "KEY_ENTER")) as [->|H1].
  { unfold adds; rewrite text_entry_key_enter.
    destruct (responds _ _ Enter); eexists; (split; [reflexivity|]);
      unfold requests_satisfy; by repeat constructor. }
  destruct (decide (val = "KEY_ESCAPE")) as [->|H2].
  { unfold adds; rewrite text_entry_key_escape.
    eexists; (split; [reflexivity|]); unfold requests_satisfy; by repeat constructor. }
  destruct (decide (val = "KEY_DELETE" \/ val = "KEY_BACKSPACE")) as [H3|H3].
  { unfold adds; rewrite text_entry_key_backspace by done.
    destruct (responds _ _ Backspace), (start <? cur); eexists; (split; [reflexivity|]);
      unfold requests_satisfy; by repeat constructor. }
  unfold adds; rewrite text_entry_key_other by tauto.
  destruct (responds _ _ (Literal val)); eexists; (split; [reflexivity|]);
    unfold requests_satisfy; by repeat constructor.
Qed.

Lemma text_entry_loop_adds start cur val keys w :
  adds P (text_entry_loop self start cur val keys) w.
Proof.
  revert cur val w. induction keys as [|k rest IH]; intros cur val w.
  - apply adds_nothing. cbn [text_entry_loop]. by destruct (_ && _).
  - destruct (decide (val = "KEY_ENTER")) as [H1|H1];
      [apply adds_nothing; by rewrite text_entry_loop_done by auto|].
    destruct (decide (val = "KEY_ESCAPE")) as [H2|H2];
      [apply adds_nothing; by rewrite text_entry_loop_done by auto|].
    destruct (bool_decide (Keys.text k = "")) eqn:E1.
    { eapply (adds_then P (mret tt) (text_entry_loop self start cur (Keys.text k) rest));
        [by apply adds_nothing | apply IH |].
      by rewrite text_entry_loop_step, E1 by done. }
    destruct (Keys.is_sequence k && negb (bool_decide (Keys.name k ∈ allowed_sequences)))
      eqn:E2.
    { eapply (adds_then P (mret tt) (text_entry_loop self start cur (Keys.name k) rest));
        [by apply adds_nothing | apply IH |].
      by rewrite text_entry_loop_step, E1, E2 by done. }
    set (val' := if Keys.is_sequence k then Keys.name k else Keys.text k).
    pose proof (text_entry_key_adds start cur val' w) as Hkey.
    assert (text_entry_loop self start cur val (k :: rest) w
            = match text_entry_key self start cur val' w with
              | (Val cur', w') => text_entry_loop self start cur' val' rest w'
              | (Exc e, w') => (Exc e, w')
              | (Hang, w') => (Hang, w')
              | (OutOfFuel, w') => (OutOfFuel, w')
              end) as Hstep by by rewrite text_entry_loop_step, E1, E2 by done.
    destruct (text_entry_key self start cur val' w) as [[cur'| | |] w'] eqn:Ek.
    + eapply (adds_then P (text_entry_key self start cur val')
                (text_entry_loop self start cur' val' rest)); [done | | ].
      * rewrite Ek. apply IH.
      * by rewrite Hstep, Ek.
    + destruct Hkey as (a & Ha & Hs). exists a. rewrite Hstep. by rewrite Ek in Ha.
    + destruct Hkey as (a & Ha & Hs). exists a. rewrite Hstep. by rewrite Ek in Ha.
    + destruct Hkey as (a & Ha & Hs). exists a. rewrite Hstep. by rewrite Ek in Ha.
Qed.

Lemma text_entry_adds keys w : adds P (text_entry self keys) w.
Proof.
  set (w0 := extend w 0 [Write "Enter text (<Esc> to abort) : "; Flush]).
  pose proof (text_entry_loop_adds (get_location (term self)).2
                (get_location (term self)).2 "" keys w0) as (a & Ha & Hs).
  unfold adds. rewrite text_entry_eq. fold w0.
  destruct (text_entry_loop self _ _ "" keys w0) as [[rest| | |] w'];
    cbn [snd extend log] in *; rewrite Ha; cbn [log w0 extend];
    rewrite <- !app_assoc; eexists; (split; [reflexivity|]);
    repeat apply requests_satisfy_app; try done;
    unfold requests_satisfy; by repeat constructor.
Qed.

Lemma invoke_adds (b : Binding) rest w :
  (forall op, b = Op op -> P op) -> adds P (invoke self b rest) w.
Proof.
  intros Hb. destruct b as [op|]; [|apply text_entry_adds].
  unfold adds, invoke. rewrite bind_eq.
  destruct (responds (roku self) (calls w) op) eqn:E;
    [rewrite request_ok by done | rewrite request_fail by done]; mstep;
    eexists; (split; [reflexivity|]); unfold requests_satisfy;
    repeat constructor; by apply Hb.
Qed.

Lemma main_loop_adds fuel (table : gmap string Binding) val keys w :
  (forall k op, table !! k = Some (Op op) -> P op) ->
  adds P (main_loop fuel self table val keys) w.
Proof.
  intros Htable. revert val keys w. induction fuel as [|fuel IH]; intros val keys w.
  { apply adds_nothing. cbn [main_loop]. by destruct (bool_decide _). }
  destruct (decide (lower val = "q")) as [Hq|Hq];
    [apply adds_nothing; by rewrite main_loop_quit|].
  destruct keys as [|k rest].
  { apply adds_nothing. cbn [main_loop]. by rewrite bool_decide_eq_true_2. }
  destruct (decide (Keys.text k = "")) as [Hk|Hk].
  { eapply (adds_then P (mret tt) (main_loop fuel self table (Keys.text k) rest));
      [by apply adds_nothing | apply IH |].
    cbn [main_loop]. rewrite bool_decide_eq_true_2 by done.
    by rewrite (bool_decide_eq_true_2 (Keys.text k = "")). }
  pose proof (main_loop_step self fuel table val k rest w Hq Hk) as Hstep.
  cbn zeta in Hstep. fold (key_val k) in Hstep.
  destruct (table !! key_val k) as [b|] eqn:Eb.
  - pose proof (invoke_adds b rest w) as Hinv.
    destruct (invoke self b rest w) as [[rest'| | |] w'] eqn:Ei.
    + eapply (adds_then P (invoke self b rest) (main_loop fuel self table (key_val k) rest')).
      * apply Hinv. intros op ->. by eapply Htable.
      * rewrite Ei. apply IH.
      * by rewrite Hstep, Ei.
    + destruct Hinv as (a & Ha & Hs); [intros op ->; by eapply Htable|].
      rewrite Ei in Ha. exists (a ++ [Print (unreachable_message (roku self))])%list.
      rewrite Hstep. cbn [snd extend log] in *. rewrite Ha, <- app_assoc.
      split; [done|]. apply requests_satisfy_app; [done|].
      unfold requests_satisfy; by repeat constructor.
    + destruct Hinv as (a & Ha & Hs); [intros op ->; by eapply Htable|].
      rewrite Ei in Ha. exists a. by rewrite Hstep.
    + destruct Hinv as (a & Ha & Hs); [intros op ->; by eapply Htable|].
      rewrite Ei in Ha. exists a. by rewrite Hstep.
  - eapply (adds_then P (mret tt) (main_loop fuel self table (key_val k) rest));
      [by apply adds_nothing | apply IH | by rewrite Hstep].
Qed.

End Invariant.

Lemma echoed_cons c text :
  echoed (String c text)
  = ([Request (Literal (String c "")) true; Write (String c ""); Flush] ++ echoed text)%list.
Proof. reflexivity. Qed.

(** typing plain characters while the sub-mode runs *)
Lemma text_entry_loop_typed text :
  forall start cur val tail w,
    val <> "KEY_ENTER" -> val <> "KEY_ESCAPE" ->
    (forall i c, chars text !! i = Some c ->
                 responds (roku self) (i + calls w) (Literal (String c "")) = true) ->
    exists val',
      val' <> "KEY_ENTER" /\ val' <> "KEY_ESCAPE"
      /\ text_entry_loop self start cur val (typed text ++ tail) w
         = text_entry_loop self start (cur + Z.of_nat (String.length text)) val' tail
             (extend w (String.length text) (echoed text)).
Proof.
  induction text as [|c text IH]; intros start cur val tail w H1 H2 Hok.
  { exists val. split; [done|]. split; [done|].
    cbn. by rewrite Z.add_0_r, extend_nil. }
  destruct (IH start (cur + 1) (String c "") tail
              (extend w 1 [Request (Literal (String c "")) true; Write (String c ""); Flush]))
    as (val' & H1' & H2' & Hrun); [done | done | |].
  { intros i c' Hi. cbn [extend calls].
    replace (i + (1 + calls w))%nat with (S i + calls w)%nat by lia. by apply Hok. }
  exists val'. split; [done|]. split; [done|].
  unfold typed in *. cbn [chars fmap list_fmap app].
  rewrite text_entry_loop_step by done. cbn [Keys.text Keys.is_sequence andb].
  rewrite bool_decide_eq_false_2 by done. cbn zeta.
  pose proof (Hok 0%nat c eq_refl) as H0. cbn [Nat.add] in H0.
  rewrite text_entry_key_literal, H0, Hrun, extend_extend.
  rewrite echoed_cons. cbn [String.length]. f_equal; [lia|]. f_equal. lia.
Qed.

Lemma requests_echoed text :
  requests (echoed text)
  = (λ c, (Literal (String c ""), true)) <$> chars text.
Proof.
  induction text as [|c text IH]; [done|].
  rewrite echoed_cons, requests_app, IH. reflexivity.
Qed.

Lemma requests_sent ops : requests (sent ops) = (λ op, (op, true)) <$> ops.
Proof. induction ops as [|op ops IH]; [done|]. cbn. by rewrite <- IH. Qed.

Lemma length_chars text : List.length (chars text) = String.length text.
Proof. induction text as [|c text IH]; [done|]. cbn. by rewrite IH. Qed.

Lemma text_ops_literal text i c :
  chars text !! i = Some c -> text_ops text !! i = Some (Literal (String c "")).
Proof.
  intros H. unfold text_ops. rewrite lookup_app_l.
  - by rewrite list_lookup_fmap, H.
  - rewrite length_fmap. by apply lookup_lt_Some in H.
Qed.

Lemma text_ops_enter text : text_ops text !! String.length text = Some Enter.
Proof.
  unfold text_ops. rewrite lookup_app_r by (by rewrite length_fmap, length_chars).
  by rewrite length_fmap, length_chars, Nat.sub_diag.
Qed.

Lemma text_entry_typed_enter text rest w :
  (forall i c, chars text !! i = Some c ->
               responds (roku self) (i + calls w) (Literal (String c "")) = true) ->
  responds (roku self) (String.length text + calls w) Enter = true ->
  text_entry self (typed text ++ KSeq "KEY_ENTER" :: rest) w
  = (Val rest,
     extend w (S (String.length text))
       ([Write "Enter text (<Esc> to abort) : "; Flush] ++ echoed text
        ++ [Request Enter true; Flush;
            WriteClearBol; WriteMove (height (term self)) 0; Flush])).
Proof.
  intros Hok Henter. rewrite text_entry_eq.
  destruct (text_entry_loop_typed text (get_location (term self)).2
              (get_location (term self)).2 "" (KSeq "KEY_ENTER" :: rest)
              (extend w 0 [Write "Enter text (<Esc> to abort) : "; Flush]))
    as (val' & H1 & H2 & ->); [done | done | done |].
  rewrite text_entry_loop_step by done.
  cbn [Keys.text Keys.is_sequence Keys.name].
  rewrite bool_decide_eq_false_2 by done.
  rewrite (bool_decide_eq_true_2 ("KEY_ENTER" ∈ allowed_sequences)) by by vm_compute.
  cbn [andb negb]. rewrite text_entry_key_enter.
  cbn [extend calls Nat.add]. rewrite Henter.
  rewrite text_entry_loop_done by auto.
  rewrite !extend_extend. f_equal. unfold extend.
  f_equal; first [lia | by rewrite <- ?app_assoc].
Qed.

Lemma text_entry_typed_escape text rest w :
  (forall i c, chars text !! i = Some c ->
               responds (roku self) (i + calls w) (Literal (String c "")) = true) ->
  text_entry self (typed text ++ KSeq "KEY_ESCAPE" :: rest) w
  = (Val rest,
     extend w (String.length text)
       ([Write "Enter text (<Esc> to abort) : "; Flush] ++ echoed text
        ++ [Flush; WriteClearBol; WriteMove (height (term self)) 0; Flush])).
Proof.
  intros Hok. rewrite text_entry_eq.
  destruct (text_entry_loop_typed text (get_location (term self)).2
              (get_location (term self)).2 "" (KSeq "KEY_ESCAPE" :: rest)
              (extend w 0 [Write "Enter text (<Esc> to abort) : "; Flush]))
    as (val' & H1 & H2 & ->); [done | done | done |].
  rewrite text_entry_loop_step by done.
  cbn [Keys.text Keys.is_sequence Keys.name].
  rewrite bool_decide_eq_false_2 by done.
  rewrite (bool_decide_eq_true_2 ("KEY_ESCAPE" ∈ allowed_sequences)) by by vm_compute.
  cbn [andb negb]. rewrite text_entry_key_escape.
  rewrite text_entry_loop_done by auto.
  rewrite !extend_extend. f_equal. unfold extend.
  f_equal; first [lia | by rewrite <- ?app_assoc].
Qed.

End MoreInteractiveFacts.

Section ColumnFacts.
Import PyStr Interactive.
Variable self : RokuCLI.

Lemma erasures_app l1 l2 : erasures (l1 ++ l2) = (erasures l1 + erasures l2)%nat.
Proof. unfold erasures. by rewrite List.filter_app, length_app. Qed.

Lemma echoes_app l1 l2 : echoes (l1 ++ l2) = (echoes l1 + echoes l2)%nat.
Proof. unfold echoes. by rewrite List.filter_app, length_app. Qed.

Lemma echo_is_no_erasure c : is_erasure (Write (String c "")) = false.
Proof. cbn. by apply bool_decide_eq_false_2. Qed.

Lemma allowed_inv name :
  bool_decide (name ∈ allowed_sequences) = true ->
  name = "KEY_ENTER" \/ name = "KEY_ESCAPE"
  \/ name = "KEY_DELETE" \/ name = "KEY_BACKSPACE".
Proof.
  intros H. apply bool_decide_eq_true_1 in H. unfold allowed_sequences in H.
  apply elem_of_list_to_set in H.
  repeat (apply elem_of_cons in H as [H|H]; [tauto|]).
  by apply elem_of_nil in H.
Qed.

Lemma keeps_column_stop start cur (m : M (list Keystroke)) w r n es :
  m w = (r, extend w n es) ->
  Z.of_nat (erasures es) <= cur - start + Z.of_nat (echoes es) ->
  keeps_column start cur m w.
Proof. intros Hm H. exists es. by rewrite Hm. Qed.

Lemma keeps_column_go start cur cur' (m k : M (list Keystroke)) w n es :
  m w = k (extend w n es) ->
  keeps_column start cur' k (extend w n es) ->
  Z.of_nat (erasures es) + cur' <= cur + Z.of_nat (echoes es) ->
  keeps_column start cur m w.
Proof.
  intros Hm (a & Ha & Hc) H. exists (es ++ a)%list.
  rewrite Hm, Ha. cbn [extend log]. rewrite <- app_assoc. split; [done|].
  rewrite erasures_app, echoes_app. lia.
Qed.

Lemma keeps_column_same start cur (m k : M (list Keystroke)) w :
  m w = k w -> keeps_column start cur k w -> keeps_column start cur m w.
Proof. intros Hm (a & Ha & Hc). exists a. by rewrite Hm. Qed.

Lemma text_entry_loop_keeps_column keys :
  forall start cur val w,
    start <= cur ->
    keeps_column start cur (text_entry_loop self start cur val keys) w.
Proof.
  induction keys as [|k rest IH]; intros start cur val w Hcol.
  { exists []. rewrite app_nil_r. split; [|cbn; lia].
    cbn [text_entry_loop]. by destruct (_ && _). }
  destruct (decide (val = "KEY_ENTER")) as [H1|H1].
  { exists []. rewrite app_nil_r, text_entry_loop_done by auto. split; [done|cbn; lia]. }
  destruct (decide (val = "KEY_ESCAPE")) as [H2|H2].
  { exists []. rewrite app_nil_r, text_entry_loop_done by auto. split; [done|cbn; lia]. }
  pose proof (text_entry_loop_step self start cur val k rest w H1 H2) as Hstep.
  destruct k as [|c|name]; cbn [Keys.text Keys.is_sequence Keys.name andb] in Hstep.
  - (* an empty keystroke *)
    rewrite bool_decide_eq_true_2 in Hstep by done.
    eapply keeps_column_same; [exact Hstep|]. by apply IH.
  - (* a character: sent, echoed *)
    rewrite bool_decide_eq_false_2 in Hstep by done. cbn zeta in Hstep.
    rewrite text_entry_key_literal in Hstep.
    destruct (responds _ _ (Literal _)).
    + eapply (keeps_column_go start cur (cur + 1)); [exact Hstep | apply IH; lia |].
      unfold erasures, echoes. cbn [List.filter is_echo is_erasure].
      rewrite bool_decide_eq_false_2 by done. cbn. lia.
    + eapply keeps_column_stop; [exact Hstep|]. cbn. lia.
  - (* a key sequence *)
    rewrite bool_decide_eq_false_2 in Hstep by done.
    destruct (bool_decide (name ∈ allowed_sequences)) eqn:Ea; cbn [negb] in Hstep.
    2:{ eapply keeps_column_same; [exact Hstep|]. by apply IH. }
    cbn zeta in Hstep.
    destruct (allowed_inv _ Ea) as [-> | [-> | Hdel]].
    + rewrite text_entry_key_enter in Hstep. destruct (responds _ _ Enter).
      * rewrite (text_entry_loop_done self start cur "KEY_ENTER") in Hstep by auto.
        eapply keeps_column_stop; [exact Hstep|]. cbn. lia.
      * eapply keeps_column_stop; [exact Hstep|]. cbn. lia.
    + rewrite text_entry_key_escape in Hstep.
      rewrite (text_entry_loop_done self start cur "KEY_ESCAPE") in Hstep by auto.
      eapply keeps_column_stop; [exact Hstep|]. cbn. lia.
    + rewrite text_entry_key_backspace in Hstep by done.
      destruct (responds _ _ Backspace).
      * destruct (Z.ltb_spec start cur).
        -- eapply (keeps_column_go start cur (cur - 1)); [exact Hstep | apply IH; lia |].
           replace (erasures _) with 1%nat by reflexivity.
           replace (echoes _) with 0%nat by reflexivity. lia.
        -- eapply (keeps_column_go start cur cur); [exact Hstep | by apply IH |].
           cbn. lia.
      * eapply keeps_column_stop; [exact Hstep|]. cbn. lia.
Qed.

End ColumnFacts.

Section ExitFacts.
Import PyStr Interactive.
Variable self : RokuCLI.

Lemma text_entry_key_result start cur val w :
  (exists cur', (text_entry_key self start cur val w).1 = Val cur')
  \/ (text_entry_key self start cur val w).1 = Exc DeviceError.
Proof.
  destruct (decide (val = "KEY_ENTER")) as [->|H1].
  { rewrite text_entry_key_enter. destruct (responds _ _ Enter); [left; by eexists|by right]. }
  destruct (decide (val = "KEY_ESCAPE")) as [->|H2].
  { rewrite text_entry_key_escape. left; by eexists. }
  destruct (decide (val = "KEY_DELETE" \/ val = "KEY_BACKSPACE")) as [H3|H3].
  { rewrite text_entry_key_backspace by done.
    destruct (responds _ _ Backspace), (start <? cur); try (left; by eexists); by right. }
  rewrite text_entry_key_other by tauto.
  destruct (responds _ _ (Literal val)); [left; by eexists|by right].
Qed.

(** the sub-mode returns a suffix of the keys, or raises the device's
    failure, or waits for a key *)
Lemma text_entry_loop_result keys :
  forall start cur val w,
    (exists pre rest', keys = (pre ++ rest')%list
                       /\ (text_entry_loop self start cur val keys w).1 = Val rest')
    \/ (text_entry_loop self start cur val keys w).1 = Exc DeviceError
    \/ (text_entry_loop self start cur val keys w).1 = Hang.
Proof.
  induction keys as [|k rest IH]; intros start cur val w.
  { cbn [text_entry_loop]. destruct (_ && _); [by right; right|].
    left. by exists [], []. }
  destruct (decide (val = "KEY_ENTER")) as [H1|H1].
  { rewrite text_entry_loop_done by auto. left. by exists [], (k :: rest). }
  destruct (decide (val = "KEY_ESCAPE")) as [H2|H2].
  { rewrite text_entry_loop_done by auto. left. by exists [], (k :: rest). }
  assert (forall cur' val' w',
             (exists pre rest', k :: rest = (pre ++ rest')%list
                /\ (text_entry_loop self start cur' val' rest w').1 = Val rest')
             \/ (text_entry_loop self start cur' val' rest w').1 = Exc DeviceError
             \/ (text_entry_loop self start cur' val' rest w').1 = Hang) as IH'.
  { intros cur' val' w'.
    destruct (IH start cur' val' w') as [(pre & rest' & -> & Hr)|Hr]; [|by right].
    left. by exists (k :: pre), rest'. }
  rewrite text_entry_loop_step by done.
  destruct (bool_decide (Keys.text k = "")); [apply IH'|].
  destruct (Keys.is_sequence k && _); [apply IH'|].
  cbn zeta. set (val' := if Keys.is_sequence k then _ else _).
  destruct (text_entry_key_result start cur val' w) as [[cur' Hk]|Hk];
    destruct (text_entry_key self start cur val' w) as [[] w']; simplify_eq/=.
  - apply IH'.
  - right. by left.
Qed.

Lemma invoke_result (b : Binding) rest w :
  (exists pre rest', rest = (pre ++ rest')%list /\ (invoke self b rest w).1 = Val rest')
  \/ (invoke self b rest w).1 = Exc DeviceError
  \/ (invoke self b rest w).1 = Hang.
Proof.
  destruct b as [op|]; unfold invoke.
  - rewrite bind_eq. destruct (responds (roku self) (calls w) op) eqn:E.
    + rewrite request_ok by done. left. by exists [], rest.
    + rewrite request_fail by done. right. by left.
  - rewrite text_entry_eq.
    destruct (text_entry_loop_result rest (get_location (term self)).2
                (get_location (term self)).2 ""
                (extend w 0 [Write "Enter text (<Esc> to abort) : "; Flush]))
      as [(pre & rest' & -> & Hr)|[Hr|Hr]];
      destruct (text_entry_loop self _ _ "" _ _) as [[] w']; simplify_eq/=.
    + left. by exists pre, rest'.
    + right. by left.
    + right. by right.
Qed.

(** how the interactive loop can end, and what a normal end needs *)
Lemma main_loop_result fuel (table : gmap string Binding) :
  forall val keys w,
    ((exists rest', (main_loop fuel self table val keys w).1 = Val rest')
     /\ (lower val = "q" \/ exists k, k ∈ keys /\ lower (key_val k) = "q"))
    \/ (main_loop fuel self table val keys w).1 = Exc (SystemExit 1)
    \/ (main_loop fuel self table val keys w).1 = Hang
    \/ (main_loop fuel self table val keys w).1 = OutOfFuel.
Proof.
  induction fuel as [|fuel IH]; intros val keys w.
  { cbn [main_loop]. destruct (decide (lower val = "q")) as [Hq|Hq].
    - rewrite bool_decide_eq_false_2 by (by intros ?). left. split; [by eexists|by left].
    - rewrite bool_decide_eq_true_2 by done. by right; right; right. }
  destruct (decide (lower val = "q")) as [Hq|Hq].
  { rewrite main_loop_quit by done. left. split; [by eexists|by left]. }
  destruct keys as [|k rest].
  { cbn [main_loop]. rewrite bool_decide_eq_true_2 by done. by right; right; left. }
  assert (forall rest' w',
             (exists pre, rest = (pre ++ rest')%list) ->
             ((exists r, (main_loop fuel self table (key_val k) rest' w').1 = Val r)
              /\ (lower val = "q" \/ exists k', k' ∈ k :: rest /\ lower (key_val k') = "q"))
             \/ (main_loop fuel self table (key_val k) rest' w').1 = Exc (SystemExit 1)
             \/ (main_loop fuel self table (key_val k) rest' w').1 = Hang
             \/ (main_loop fuel self table (key_val k) rest' w').1 = OutOfFuel) as IH'.
  { intros rest' w' [pre ->].
    destruct (IH (key_val k) rest' w') as [[Hr [Hq'|(k' & Hin & Hq')]]|Hr]; [| |by right].
    - left. split; [done|]. right. exists k. split; [apply list_elem_of_here|done].
    - left. split; [done|]. right. exists k'. split; [|done].
      apply list_elem_of_further, elem_of_app. by right. }
  destruct (decide (Keys.text k = "")) as [Hk|Hk].
  { cbn [main_loop]. rewrite bool_decide_eq_true_2 by done.
    rewrite (bool_decide_eq_true_2 (Keys.text k = "")) by done.
    replace (Keys.text k) with (key_val k) by by destruct k.
    apply IH'. by exists []. }
  rewrite main_loop_step by done. cbn zeta. fold (key_val k).
  destruct (table !! key_val k) as [b|]; [|apply IH'; by exists []].
  destruct (invoke_result b rest w) as [(pre & rest' & Hpre & Hr)|[Hr|Hr]];
    destruct (invoke self b rest w) as [[] w']; simplify_eq/=.
  - apply IH'. by exists pre.
  - right. by left.
  - right. right. by left.
Qed.

End ExitFacts.

Section MoreInteractiveProperties.
Import PyStr Interactive.

(** X7. Keys that are empty or that the table does not bind (the quit
    key apart) are passed over in silence: after any run of such keys the
    loop stands where it would without them, with nothing sent, printed
    or written; only [val] remembers the last of them. *)
Theorem unbound_keys_passed_over (self : RokuCLI) (fuel : nat)
    (table : gmap string Binding) (ks : list Keystroke) (val : string)
    (rest : list Keystroke) (w : World) :
  lower val <> "q" ->
  Forall (passed_over table) ks ->
  main_loop (List.length ks + fuel) self table val (ks ++ rest) w
  = main_loop fuel self table (default val (key_val <$> last ks)) rest w.
Proof.
  intros Hval Hks. revert val Hval.
  induction Hks as [|k ks [Hk Hq] Hks IH]; intros val Hval; [done|].
  assert (main_loop (S (List.length ks + fuel)) self table val (k :: ks ++ rest) w
          = main_loop (List.length ks + fuel) self table (key_val k) (ks ++ rest) w)
    as Hstep.
  { destruct (decide (Keys.text k = "")) as [He|He].
    - cbn [main_loop]. rewrite bool_decide_eq_true_2 by done.
      rewrite (bool_decide_eq_true_2 (Keys.text k = "")) by done.
      by destruct k.
    - rewrite main_loop_step by done. cbn zeta. fold (key_val k).
      destruct Hk as [? | ->]; done. }
  cbn [List.length Nat.add app]. rewrite Hstep, IH by done.
  f_equal. rewrite last_cons. by destruct (last ks).
Qed.

Lemma unbound_keys_passed_over_witness :
  main_loop (3 + 1) (cli box) (cmd_func_map false) ""
    ([KChar "x"; KEmpty; KSeq "KEY_HOME"] ++ [KChar "q"]) world0
  = main_loop 1 (cli box) (cmd_func_map false) "KEY_HOME" [KChar "q"] world0.
Proof.
  apply (unbound_keys_passed_over (cli box) 1 (cmd_func_map false)
           [KChar "x"; KEmpty; KSeq "KEY_HOME"] "" [KChar "q"] world0); [done|].
  repeat (apply Forall_cons; split;
          [split; [first [by left | right; by vm_compute] | by vm_compute]|]).
  constructor.
Defined.

(** X8. The interactive loop only appends to the log, and every device
    operation it adds is the operation some key of the table is bound
    to, or one of the three the text entry sub-mode sends (enter,
    backspace, a literal). *)
Theorem interactive_requests_from_bindings (self : RokuCLI) (fuel : nat)
    (table : gmap string Binding) (val : string) (keys : list Keystroke) (w : World) :
  exists added,
    log (main_loop fuel self table val keys w).2 = (log w ++ added)%list
    /\ requests_satisfy
         (fun op => text_entry_op op \/ exists k, table !! k = Some (Op op)) added.
Proof.
  apply (main_loop_adds self
           (fun op => text_entry_op op \/ exists k, table !! k = Some (Op op))).
  - left. by left.
  - left. right. by left.
  - intros s. left. right. right. by exists s.
  - intros k op Hk. right. by exists k.
Qed.

Lemma default_table_has_no_volume k op :
  cmd_func_map false !! k = Some (Op op) -> ~ volume_op op.
Proof.
  unfold cmd_func_map. lazy beta zeta iota. intros H.
  apply elem_of_list_to_map_2 in H.
  repeat (apply elem_of_cons in H as [H|H];
          [simplify_eq; by intros [?|[?|?]]|]).
  by apply elem_of_nil in H.
Qed.

(** X9. On a device whose type is not [TV], interactive mode never sends
    a volume operation, whatever is typed. *)
Theorem non_tv_never_changes_volume (self : RokuCLI) (args : Args)
    (keys : list Keystroke) (w : World) :
  command args = None ->
  roku_type (roku self) <> "TV" ->
  exists added,
    log (run args (term self) (Some (roku self)) keys w).2 = (log w ++ added)%list
    /\ requests_satisfy (fun op => ~ volume_op op) added.
Proof.
  intros Hc Hbox. rewrite run_interactive_mode by auto. cbn zeta.
  rewrite bool_decide_eq_false_2 by done.
  set (w0 := extend w 0 _).
  destruct (main_loop_adds self (fun op => ~ volume_op op)
              ltac:(by intros [?|[?|?]]) ltac:(by intros [?|[?|?]])
              ltac:(by intros s [?|[?|?]])
              (S (List.length keys)) (cmd_func_map false) "" keys w0
              default_table_has_no_volume) as (a & Ha & Hs).
  eexists (_ ++ a)%list. split.
  - destruct (main_loop _ _ _ "" keys w0) as [[] w'];
      cbn [snd] in *; rewrite Ha; unfold w0; cbn [extend log];
      by rewrite <- app_assoc.
  - apply requests_satisfy_app; [|done]. unfold requests_satisfy. by repeat constructor.
Qed.

Lemma non_tv_never_changes_volume_witness :
  exists added,
    log (run {| ipaddr := None; command := None |} screen (Some box)
           [KChar "V"; KChar "v"; KChar "M"; KChar "q"] world0).2
    = (log world0 ++ added)%list
    /\ requests_satisfy (fun op => ~ volume_op op) added.
Proof.
  apply (non_tv_never_changes_volume (cli box) {| ipaddr := None; command := None |}
           [KChar "V"; KChar "v"; KChar "M"; KChar "q"] world0); done.
Defined.

(** X10. Typing a text in the sub-mode relays it: each character is sent
    as a literal, echoed and flushed, in order; [enter] then sends one
    enter operation, [escape] sends nothing more; either way the line is
    cleared, the cursor moved to the bottom row, and the keys typed
    after it are left for the main loop. *)
Theorem text_entry_relays_typed_text (self : RokuCLI) (text : string)
    (rest : list Keystroke) (w : World) :
  (forall i c, chars text !! i = Some c ->
               responds (roku self) (i + calls w) (Literal (String c "")) = true) ->
  (responds (roku self) (String.length text + calls w) Enter = true ->
   text_entry self (typed text ++ KSeq "KEY_ENTER" :: rest) w
   = (Val rest,
      extend w (S (String.length text))
        ([Write "Enter text (<Esc> to abort) : "; Flush] ++ echoed text
         ++ [Request Enter true; Flush;
             WriteClearBol; WriteMove (height (term self)) 0; Flush])))
  /\ text_entry self (typed text ++ KSeq "KEY_ESCAPE" :: rest) w
     = (Val rest,
        extend w (String.length text)
          ([Write "Enter text (<Esc> to abort) : "; Flush] ++ echoed text
           ++ [Flush; WriteClearBol; WriteMove (height (term self)) 0; Flush])).
Proof.
  intros Hok. split.
  - intros Henter. by apply text_entry_typed_enter.
  - by apply text_entry_typed_escape.
Qed.

Lemma text_entry_relays_typed_text_witness :
  text_entry (cli box) (typed "ok" ++ KSeq "KEY_ESCAPE" :: [KChar "h"]) world0
  = (Val [KChar "h"],
     extend world0 2
       ([Write "Enter text (<Esc> to abort) : "; Flush] ++ echoed "ok"
        ++ [Flush; WriteClearBol; WriteMove 24 0; Flush])).
Proof.
  apply (text_entry_relays_typed_text (cli box) "ok" [KChar "h"] world0).
  intros i c _. reflexivity.
Defined.

(** X11. Typing a text in the sub-mode and confirming it with [enter]
    sends the device exactly the requests, in the same order, that the
    script directive [TEXT:] sends for the same text. *)
Theorem text_entry_matches_text_directive (self : RokuCLI) (text : string) (w : World) :
  (forall i op, text_ops text !! i = Some op ->
                responds (roku self) (i + calls w) op = true) ->
  requests (log (text_entry self (typed text ++ [KSeq "KEY_ENTER"]) w).2)
  = requests (log (Script.execute_text self text w).2)
  /\ requests (log (Script.execute_text self text w).2)
     = (requests (log w) ++ ((fun op => (op, true)) <$> text_ops text))%list
  /\ calls (text_entry self (typed text ++ [KSeq "KEY_ENTER"]) w).2
     = calls (Script.execute_text self text w).2.
Proof.
  intros Hok.
  rewrite text_entry_typed_enter;
    [| intros i c Hi; by apply Hok, text_ops_literal | apply Hok, text_ops_enter].
  rewrite execute_text_eq, run_ops_ok by done.
  cbn [snd extend log calls]. rewrite !requests_app, requests_echoed, requests_sent.
  unfold text_ops. rewrite fmap_app, <- list_fmap_compose, length_app, length_fmap.
  rewrite length_chars. cbn. split; [done|]. split; [done|lia].
Qed.

Lemma text_entry_matches_text_directive_witness :
  requests (log (text_entry (cli box) (typed "Hi" ++ [KSeq "KEY_ENTER"]) world0).2)
  = requests (log (Script.execute_text (cli box) "Hi" world0).2).
Proof.
  apply (text_entry_matches_text_directive (cli box) "Hi" world0).
  intros i op _. reflexivity.
Defined.

(** X12. The local echo never backspaces too far: whatever is typed in
    the text entry sub-mode, and at whatever key the typing stands, the
    sub-mode has erased no more characters on screen than it has echoed. *)
Theorem echo_never_erased_past_start (self : RokuCLI) (keys : list Keystroke) (w : World) :
  exists added,
    log (text_entry self keys w).2 = (log w ++ added)%list
    /\ (erasures added <= echoes added)%nat.
Proof.
  rewrite text_entry_eq.
  destruct (text_entry_loop_keeps_column self keys (get_location (term self)).2
              (get_location (term self)).2 ""
              (extend w 0 [Write "Enter text (<Esc> to abort) : "; Flush])
              ltac:(lia)) as (a & Ha & Hc).
  destruct (text_entry_loop self _ _ "" keys _) as [[rest| | |] w'];
    cbn [snd extend log] in *; rewrite Ha, <- ?app_assoc;
    eexists; (split; [reflexivity|]);
    rewrite ?erasures_app, ?echoes_app;
    repeat match goal with
           | |- context [erasures [?a; ?b]] =>
               replace (erasures [a; b]) with 0%nat by reflexivity
           | |- context [echoes [?a; ?b]] =>
               replace (echoes [a; b]) with 0%nat by reflexivity
           | |- context [erasures [?a; ?b; ?c]] =>
               replace (erasures [a; b; c]) with 0%nat by reflexivity
           | |- context [echoes [?a; ?b; ?c]] =>
               replace (echoes [a; b; c]) with 0%nat by reflexivity
           end; lia.
Qed.

(** X13. Interactive mode ends in one of three ways only: the loop
    returns, the process exits with status 1, or the program waits for a
    key; and the loop returns only when one of the keys typed was [q] or
    [Q]. *)
Theorem interactive_mode_ends (self : RokuCLI) (args : Args)
    (keys : list Keystroke) (w : World) :
  command args = None ->
  let r := (run args (term self) (Some (roku self)) keys w).1 in
  (r = Val tt \/ r = Exc (SystemExit 1) \/ r = Hang)
  /\ (r = Val tt -> exists k, k ∈ keys /\ lower (key_val k) = "q").
Proof.
  intros Hc r. subst r. rewrite run_interactive_mode by auto. cbn zeta.
  set (w0 := extend w 0 _). set (table := cmd_func_map _).
  pose proof (main_loop_fuel_enough self (S (List.length keys)) table "" keys w0
                (Nat.lt_succ_diag_r _)) as Hfuel.
  destruct (main_loop_result self (S (List.length keys)) table "" keys w0)
    as [[[rest' Hr] Hq]|[Hr|[Hr|Hr]]];
    destruct (main_loop _ _ _ "" keys w0) as [[rest''|e| |] w'];
    cbn [fst] in *; try discriminate; try done.
  - split; [by left|]. intros _. by destruct Hq as [Hq|Hq].
  - injection Hr as ->. split; [right; by left|]. by intros ?.
  - split; [right; by right|]. by intros ?.
Qed.

Lemma interactive_mode_ends_witness :
  exists k, k ∈ [KChar "h"; KChar "Q"] /\ lower (key_val k) = "q".
Proof.
  apply (interactive_mode_ends (cli box) {| ipaddr := None; command := None |}
           [KChar "h"; KChar "Q"] world0 eq_refl).
  reflexivity.
Defined.

End MoreInteractiveProperties.

Section LastFacts.
Import PyStr Script Interactive.
Variable self : RokuCLI.

Lemma run_ops_adds P r ops w :
  Forall P ops -> adds P (run_ops r ops) w.
Proof.
  intros H. revert w; induction H as [|op ops Hop H IH]; intros w.
  { by apply adds_nothing. }
  destruct (responds r (calls w) op) eqn:E.
  - apply (adds_then P (request r op) (run_ops r ops)).
    + eapply adds_extend; [by rewrite request_ok|].
      unfold requests_satisfy; by repeat constructor.
    + apply IH.
    + cbn [run_ops]. rewrite bind_eq. by rewrite !request_ok by done.
  - eapply adds_extend.
    + cbn [run_ops]. rewrite bind_eq. by rewrite request_fail by done.
    + unfold requests_satisfy; by repeat constructor.
Qed.

Lemma text_ops_are_script_ops text : Forall script_op (text_ops text).
Proof.
  unfold text_ops. apply Forall_app_2.
  - apply Forall_fmap, Forall_forall. intros c _. right; right. by exists c.
  - constructor; [right; by left | constructor].
Qed.

Lemma execute_text_adds text w : adds script_op (execute_text self text) w.
Proof.
  destruct (run_ops_adds script_op (roku self) (text_ops text) w
              (text_ops_are_script_ops text)) as (a & Ha & Hs).
  unfold adds. rewrite execute_text_eq.
  destruct (run_ops _ _ w) as [[] w']; cbn [snd extend log] in *;
    rewrite Ha, <- ?app_assoc; eexists; (split; [reflexivity|]); try done.
  apply requests_satisfy_app; [done|]. unfold requests_satisfy; by repeat constructor.
Qed.

Lemma for_commands_adds cmds w : adds script_op (for_commands self cmds) w.
Proof.
  revert w; induction cmds as [|c cmds IH]; intros w; [by apply adds_nothing|].
  destruct (decide (c = "")) as [->|Hne].
  { destruct (IH w) as (a & Ha & Hs). exists a. by rewrite for_commands_skip. }
  destruct (is_wait (strip c)) eqn:Hw.
  { pose proof (for_commands_wait self c cmds w Hne Hw) as Hstep.
    destruct (split ":" (strip c) !! 1%nat) as [field|];
      [|by apply adds_nothing; rewrite Hstep].
    destruct (PyFloat.float_of_string field) as [d|].
    2:{ eapply adds_extend; [by rewrite Hstep|]. unfold requests_satisfy; by repeat constructor. }
    destruct (PyFloat.check_sleep d).
    - apply (adds_then script_op (emit (Sleep d)) (for_commands self cmds)).
      + eapply adds_extend; [by rewrite emit_eq|].
        unfold requests_satisfy; by repeat constructor.
      + apply IH.
      + by rewrite Hstep, emit_eq.
    - eapply adds_extend; [by rewrite Hstep|]. unfold requests_satisfy; by repeat constructor.
    - apply adds_nothing. by rewrite Hstep. }
  destruct (is_text (strip c)) eqn:Ht.
  { pose proof (for_commands_text self c cmds w Hne Ht) as Hstep.
    pose proof (execute_text_adds (slice_from 5 (strip c)) w) as Htext.
    destruct (execute_text self (slice_from 5 (strip c)) w) as [[[]|e| |] w'] eqn:Ee.
    - apply (adds_then script_op (execute_text self (slice_from 5 (strip c)))
               (for_commands self cmds)); [done | rewrite Ee; apply IH |].
      by rewrite Hstep, Ee.
    - destruct Htext as (a & Ha & Hs). exists a. rewrite Hstep. by rewrite Ee in Ha.
    - destruct Htext as (a & Ha & Hs). exists a. rewrite Hstep. by rewrite Ee in Ha.
    - destruct Htext as (a & Ha & Hs). exists a. rewrite Hstep. by rewrite Ee in Ha.
    - destruct Htext as (a & Ha & Hs). exists a. rewrite Hstep. by rewrite Ee in Ha. }
  pose proof (for_commands_ordinary self c cmds w Hne Hw Ht) as Hstep.
  destruct (known_op (strip c)) as [op|] eqn:Hop; [|by apply adds_nothing; rewrite Hstep].
  assert (script_op op) as Hsop by (left; by exists (lower (strip c))).
  destruct (responds (roku self) (calls w) op).
  - destruct (IH (extend w 1 [Request op true; pause])) as (a & Ha & Hs).
    exists ([Request op true; pause] ++ a)%list.
    rewrite Hstep, Ha. cbn [extend log]. rewrite <- app_assoc. split; [done|].
    apply requests_satisfy_app; [|done].
    constructor; [done|]. constructor; [done|constructor].
  - eapply adds_extend; [by rewrite Hstep|].
    constructor; [done|]. constructor; [done|constructor].
Qed.

Lemma backspace_is_no_script_op : ~ script_op Backspace.
Proof.
  intros [(name & H)|[H|(c & H)]]; try done.
  unfold cmd_func_map in H. apply elem_of_list_to_map_2 in H.
  repeat (apply elem_of_cons in H as [H|H]; [by simplify_eq|]).
  by apply elem_of_nil in H.
Qed.

End LastFacts.

Section LastProperties.
Import PyStr Script Interactive.

(** X14. In the text entry sub-mode, empty keystrokes and key sequences
    other than enter, escape, delete and backspace are skipped: after any
    run of them the sub-mode stands where it would without them, nothing
    sent, echoed or flushed, the column unchanged. *)
Theorem other_keys_skipped_in_text_entry (self : RokuCLI) (ks : list Keystroke)
    (start_column cur_column : Z) (val : string) (rest : list Keystroke) (w : World) :
  val <> "KEY_ENTER" -> val <> "KEY_ESCAPE" ->
  Forall skipped_in_text_entry ks ->
  text_entry_loop self start_column cur_column val (ks ++ rest) w
  = text_entry_loop self start_column cur_column
      (default val (key_val <$> last ks)) rest w.
Proof.
  intros H1 H2 Hks. revert val H1 H2.
  induction Hks as [|k ks Hk Hks IH]; intros val H1 H2; [done|].
  assert (key_val k <> "KEY_ENTER" /\ key_val k <> "KEY_ESCAPE"
          /\ text_entry_loop self start_column cur_column val (k :: ks ++ rest) w
             = text_entry_loop self start_column cur_column (key_val k) (ks ++ rest) w)
    as (H1' & H2' & Hstep).
  { rewrite text_entry_loop_step by done.
    destruct Hk as [->|(name & -> & Hout)]; [done|].
    cbn [Keys.text Keys.is_sequence Keys.name key_val].
    rewrite bool_decide_eq_false_2 by done.
    rewrite (bool_decide_eq_false_2 (name ∈ allowed_sequences)) by done.
    repeat split; [intros ->; apply Hout; by vm_compute ..]. }
  cbn [app]. rewrite Hstep, IH by done.
  f_equal. rewrite last_cons. by destruct (last ks).
Qed.

Lemma other_keys_skipped_in_text_entry_witness :
  text_entry_loop (cli box) 30 31 "a"
    ([KSeq "KEY_LEFT"; KEmpty; KSeq "KEY_F1"] ++ [KSeq "KEY_ENTER"]) world0
  = text_entry_loop (cli box) 30 31 "KEY_F1" [KSeq "KEY_ENTER"] world0.
Proof.
  apply (other_keys_skipped_in_text_entry (cli box)
           [KSeq "KEY_LEFT"; KEmpty; KSeq "KEY_F1"] 30 31 "a" [KSeq "KEY_ENTER"] world0);
    [done | done |].
  repeat (apply Forall_cons; split;
          [first [by left | right; eexists; split; [reflexivity | by vm_compute]]|]).
  constructor.
Defined.

(** X15. Script mode only appends to the log, and every device operation
    it adds is one the command table binds, the enter that ends a text,
    or a one-character literal; in particular it never sends backspace. *)
Theorem script_requests_from_table (self : RokuCLI) (script : string) (w : World) :
  exists added,
    log (parse_and_execute_commands self script w).2 = (log w ++ added)%list
    /\ requests_satisfy script_op added
    /\ forall ok, Request Backspace ok ∉ added.
Proof.
  destruct (for_commands_adds self (strip <$> split "," script) w) as (a & Ha & Hs).
  exists a. split; [done|]. split; [done|].
  intros ok Hin. unfold requests_satisfy in Hs. rewrite Forall_forall in Hs.
  by apply backspace_is_no_script_op, (Hs _ Hin).
Qed.

(** X16. A comma more at either end of a script changes nothing: the
    empty token it adds is skipped. *)
Theorem extra_comma_is_harmless (self : RokuCLI) (script : string) (w : World) :
  parse_and_execute_commands self (script ++ ",") w
  = parse_and_execute_commands self script w
  /\ parse_and_execute_commands self ("," ++ script) w
     = parse_and_execute_commands self script w.
Proof.
  unfold parse_and_execute_commands. split.
  - change (script ++ ",") with (script ++ String "," "").
    rewrite split_append, fmap_app, for_commands_app.
    by destruct (for_commands self _ w) as [[[]| | |] w'].
  - change ("," ++ script) with ("" ++ String "," script).
    by rewrite split_append.
Qed.

End LastProperties.
